(** * Indoor air-quality indices engine: statistics, history buffer, composite indices

    Shallow embedding of [utils/indices.js] (the revision of [computeIndices]
    that guards missing fields and wraps its body in [try]/[catch]) and of
    the history ring buffer, the simulator and the endpoints of [server.js].

    Numbers.  The script computes with IEEE 754 binary64 numbers.  Its code
    is embedded twice, statement by statement.

    In exact arithmetic ([JS], [Stats], [Indices], [Server], [Revisions]) a
    number is [Num r] for a real [r], or [NaN]: a division by zero and the
    square root of a negative number give [NaN]; there is no rounding, no
    overflow and no infinity.  The general statements are made here.  They
    carry over to the script where they compare two runs of the same
    operations, where they rest on comparisons, list structure and margins
    that rounding does not reach, and, up to the rounding of the last
    digits, where they give the value of an expression (a decimal tie of
    [toFixed] can fall on the other side in the script).  They do not carry
    over where they would rest on an exact cancellation or on the absence of
    overflow and underflow.

    In binary64 ([Binary64]) a number is a primitive [float], with the
    infinities, the two zeros and [NaN].  These definitions evaluate: they
    decide what the script returns on a given input, and they show the
    inputs on which rounding, overflow or underflow take the script away
    from the exact value.

    Missing fields.  A field that is [null] or [undefined] is [None].

    Exceptions.  Reading a property of [undefined] throws a [TypeError]; code
    that can throw lives in the [result] monad. *)

From Stdlib Require Import Reals Lra Lia Psatz List ZArith Bool.
From Stdlib Require Floats.
Import ListNotations.

Local Open Scope R_scope.

(** ** JavaScript numbers, in exact arithmetic *)

Module JS.

Inductive num : Type :=
  | Num (r : R)
  | NaN.

Definition add (a b : num) : num :=
  match a, b with Num x, Num y => Num (x + y) | _, _ => NaN end.

Definition sub (a b : num) : num :=
  match a, b with Num x, Num y => Num (x - y) | _, _ => NaN end.

Definition mul (a b : num) : num :=
  match a, b with Num x, Num y => Num (x * y) | _, _ => NaN end.

(** [x / 0] is not a finite number. *)
Definition div (a b : num) : num :=
  match a, b with
  | Num x, Num y => if Req_dec_T y 0 then NaN else Num (x / y)
  | _, _ => NaN
  end.

(** [Math.sqrt] *)
Definition Math_sqrt (a : num) : num :=
  match a with
  | Num x => if Rlt_dec x 0 then NaN else Num (sqrt x)
  | NaN => NaN
  end.

(** [Math.abs] *)
Definition Math_abs (a : num) : num :=
  match a with Num x => Num (Rabs x) | NaN => NaN end.

(** [Math.max], [Math.min]: [NaN] as soon as one argument is [NaN]. *)
Definition Math_max (a b : num) : num :=
  match a, b with Num x, Num y => Num (Rmax x y) | _, _ => NaN end.

Definition Math_min (a b : num) : num :=
  match a, b with Num x, Num y => Num (Rmin x y) | _, _ => NaN end.

(** [a <= b]: false as soon as one side is [NaN]. *)
Definition lte (a b : num) : bool :=
  match a, b with
  | Num x, Num y => if Rle_dec x y then true else false
  | _, _ => false
  end.

(** [a === b] on numbers: [NaN] is equal to nothing. *)
Definition strict_eq (a b : num) : bool :=
  match a, b with
  | Num x, Num y => if Req_dec_T x y then true else false
  | _, _ => false
  end.

(** [arr.length] used as a number. *)
Definition of_nat (n : nat) : num := Num (INR n).

(** [Number(x.toFixed(d))].  [toFixed] picks the integer [n] with [n / 10^d]
    closest to [|x|], the larger one on a tie, and restores the sign; [NaN]
    prints as ["NaN"] and parses back to [NaN]. *)
Definition round_half_up (x : R) : Z := Int_part (x + / 2).

Definition toFixed_val (d : nat) (x : R) : R :=
  if Rlt_dec x 0
  then - (IZR (round_half_up (- x * 10 ^ d)) / 10 ^ d)
  else IZR (round_half_up (x * 10 ^ d)) / 10 ^ d.

Definition toFixed (d : nat) (a : num) : num :=
  match a with Num x => Num (toFixed_val d x) | NaN => NaN end.


End JS.

Import JS.

Declare Scope js_scope.
Delimit Scope js_scope with js.
Bind Scope js_scope with num.
Infix "+" := add : js_scope.
Infix "-" := sub : js_scope.
Infix "*" := mul : js_scope.
Infix "/" := div : js_scope.
Infix "<=?" := lte : js_scope.
Infix "===" := strict_eq (at level 70) : js_scope.

(** ** utils/indices.js: statistics *)

Module Stats.

(** [arr.reduce((s,x)=>s+x,0)].  Arrays are lists of finite numbers; the
    test [!arr] of [mean], [std] and [pearson] is false on every array. *)
Definition sum (arr : list R) : num :=
  fold_left (fun s x => (s + Num x)%js) arr (Num 0).

Definition mean (arr : list R) : num :=
  if Nat.eqb (length arr) 0 then Num 0
  else (sum arr / of_nat (length arr))%js.

Definition std (arr : list R) : num :=
  if Nat.eqb (length arr) 0 then Num 0
  else
    let m := mean arr in
    let v := (fold_left (fun s x => s + (Num x - m) * (Num x - m)) arr (Num 0)
              / of_nat (length arr))%js in
    Math_sqrt v.

(** The accumulators [num], [denA], [denB] of the loop of [pearson]. *)
Record acc : Type := { acc_num : num; denA : num; denB : num }.

(** The [for] loop over [i = 0 .. n-1], reading [a[i]] and [b[i]]; it is only
    entered with [a.length = b.length = n]. *)
Fixpoint pearson_loop (ma mb : num) (a b : list R) (s : acc) : acc :=
  match a, b with
  | x :: a', y :: b' =>
      let da := (Num x - ma)%js in
      let db := (Num y - mb)%js in
      pearson_loop ma mb a' b'
        {| acc_num := (acc_num s + da * db)%js;
           denA := (denA s + da * da)%js;
           denB := (denB s + db * db)%js |}
  | _, _ => s
  end.

Definition pearson (a b : list R) : num :=
  if negb (Nat.eqb (length a) (length b)) || Nat.ltb (length a) 2 then Num 0
  else
    let ma := mean a in
    let mb := mean b in
    let s := pearson_loop ma mb a b
               {| acc_num := Num 0; denA := Num 0; denB := Num 0 |} in
    let den := Math_sqrt (denA s * denB s)%js in
    if (den === Num 0)%js then Num 0
    else (acc_num s / den)%js.

End Stats.

(** ** server.js: the history ring buffer *)

Module History.

Section Buffer.

Variable A : Type.
(** [HISTORY_SECONDS] (or [HISTORY_MAX]). *)
Variable capacity : nat.

(** [history.push(meas); if (history.length > capacity) history.shift();]
    The later revision of [server.js] builds the entry
    [{timestamp, measures: {...measures}}] inside [pushHistory] and pushes
    it in the same way: [meas] is then that entry. *)
Definition pushHistory (history : list A) (meas : A) : list A :=
  let history := history ++ [meas] in
  if Nat.ltb capacity (length history) then tl history else history.

(** The buffer after the ticks that append [xs] in order. *)
Definition appends (history : list A) (xs : list A) : list A :=
  fold_left pushHistory xs history.

End Buffer.

Arguments pushHistory {A} capacity history meas.
Arguments appends {A} capacity history xs.

(** [const HISTORY_SECONDS = 60 * 30] and [const HISTORY_MAX = 60 * 60]. *)
Definition HISTORY_SECONDS : nat := 60 * 30.

End History.

(** ** utils/indices.js: computeIndices *)

Module Indices.

Import Stats.

(** The seven measures; a missing field is [None]. *)
Record Measures : Type := {
  co2 : option R;
  no2 : option R;
  nh3 : option R;
  co : option R;
  temp : option R;
  rh : option R;
  pres : option R
}.

(** A window entry [{timestamp, measures}].  An object that has no
    [measures] property carries [None]: reading a field of it throws. *)
Record Entry : Type := {
  timestamp : Z;
  measures : option Measures
}.

(** Exceptions. *)
Inductive exn : Type := TypeError.

Inductive result (A : Type) : Type :=
  | Ok (a : A)
  | Throw (e : exn).
Arguments Ok {A} a.
Arguments Throw {A} e.

Definition bind {A B : Type} (m : result A) (k : A -> result B) : result B :=
  match m with Ok a => k a | Throw e => Throw e end.

Notation "x <- m ;; k" := (bind m (fun x => k))
  (at level 61, m at next level, right associativity).

(** [arr.map(f)] for an [f] that can throw. *)
Fixpoint mapM {A B : Type} (f : A -> result B) (l : list A) : result (list B) :=
  match l with
  | [] => Ok []
  | x :: l' => y <- f x ;; ys <- mapM f l' ;; Ok (y :: ys)
  end.

(** [s.measures[k]] *)
Definition get_measure (k : Measures -> option R) (s : Entry) : result (option R) :=
  match measures s with
  | Some m => Ok (k m)
  | None => Throw TypeError
  end.

(** [.filter(x => x != null)] (and [x !== undefined && x !== null]). *)
Fixpoint filter_present (l : list (option R)) : list R :=
  match l with
  | [] => []
  | Some x :: l' => x :: filter_present l'
  | None :: l' => filter_present l'
  end.

(** [win.map(s => s.measures[k]).filter(x => x != null)] *)
Definition series (k : Measures -> option R) (win : list Entry) : result (list R) :=
  xs <- mapM (get_measure k) win ;; Ok (filter_present xs).

(** [arr.slice(-k)]: the last [k] elements, all of them when there are fewer. *)
Definition slice_last {A : Type} (k : nat) (arr : list A) : list A :=
  skipn (length arr - k) arr.

Definition clamp (v lo hi : num) : num := Math_max lo (Math_min hi v).

Inductive Pollutant : Type := CO2 | NO2 | NH3 | CO.

(** [th]: the good and the bad threshold of each pollutant. *)
Definition th (p : Pollutant) : R * R :=
  match p with
  | CO2 => (600, 2000)
  | NO2 => (40, 200)
  | NH3 => (0.01, 0.1)
  | CO => (0.5, 10)
  end.

Definition weightsPoll (p : Pollutant) : R :=
  match p with CO2 => 0.5 | NO2 => 0.25 | NH3 => 0.15 | CO => 0.10 end.

Definition pollutantPenalty (x : option R) (good bad : R) : num :=
  match x with
  | None => Num 0
  | Some x =>
      if (Num x <=? Num good)%js then Num 0
      else
        let p := ((Num x - Num good) / (Num bad - Num good))%js in
        clamp (p * Num 100)%js (Num 0) (Num 100)
  end.

(** The local constants of [computeIndices] before rounding. *)
Record Locals : Type := {
  l_AQ_penalty : num;
  l_AQL : num;
  l_TCI_penalty_pct : num;
  l_TCI : num;
  l_term : num;
  l_SRI : num;
  l_Volatility_penalty : num;
  l_corr_co2_no2 : num;
  l_corr_co_nh3 : num;
  l_GEI : num;
  l_GAQI : num
}.

Record IndexResult : Type := {
  AQL : num;
  AQ_penalty : num;
  TCI : num;
  TCI_penalty_pct : num;
  SRI : num;
  Volatility_penalty : num;
  GEI : num;
  corr_co2_no2 : num;
  corr_co_nh3 : num;
  GAQI : num
}.

(** The statements of the [try] block up to the [return].  The guard
    [(lastWindow && lastWindow.length) ? lastWindow.slice(-n) : []] is
    [slice_last n], which is empty on the empty window.  The inner [try]
    around the two calls of [pearson] is transparent: [pearson] throws
    nothing. *)
Definition computeIndices_locals (state : Measures) (lastWindow : list Entry)
  : result Locals :=
  (* AQL *)
  let p_co2 := pollutantPenalty (co2 state) (fst (th CO2)) (snd (th CO2)) in
  let p_no2 := pollutantPenalty (no2 state) (fst (th NO2)) (snd (th NO2)) in
  let p_nh3 := pollutantPenalty (nh3 state) (fst (th NH3)) (snd (th NH3)) in
  let p_co := pollutantPenalty (co state) (fst (th CO)) (snd (th CO)) in
  let AQ_penalty :=
    (p_co2 * Num (weightsPoll CO2) + p_no2 * Num (weightsPoll NO2)
     + p_nh3 * Num (weightsPoll NH3) + p_co * Num (weightsPoll CO))%js in
  let AQL := clamp (Num 100 - AQ_penalty)%js (Num 0) (Num 100) in
  (* TCI *)
  let raw_tci :=
    ((match temp state with
      | None => Num 0 | Some t => Math_abs (Num t - Num 22) * Num 2.5 end)
     + (match rh state with
        | None => Num 0 | Some h => Math_abs (Num h - Num 50) * Num 0.5 end)
     + (match pres state with
        | None => Num 0 | Some p => Math_abs (Num p - Num 1013) * Num 0.02 end))%js in
  let max_raw := Num 76 in
  let TCI_penalty_pct := clamp (raw_tci / max_raw * Num 100)%js (Num 0) (Num 100) in
  let TCI := clamp (Num 100 - TCI_penalty_pct)%js (Num 0) (Num 100) in
  (* SRI *)
  let last60 := slice_last 60 lastWindow in
  co2_series <- series co2 last60 ;;
  temp_series <- series temp last60 ;;
  rh_series <- series rh last60 ;;
  let s_co2 := if Nat.leb 2 (length co2_series) then std co2_series else Num 0 in
  let s_temp := if Nat.leb 2 (length temp_series) then std temp_series else Num 0 in
  let s_rh := if Nat.leb 2 (length rh_series) then std rh_series else Num 0 in
  let beta_co2 := Num 0.4 in
  let beta_temp := Num 0.3 in
  let beta_rh := Num 0.3 in
  let max_sigma_co2 := Num 500 in
  let max_sigma_temp := Num 3 in
  let max_sigma_rh := Num 10 in
  let term :=
    ((s_co2 / max_sigma_co2) * beta_co2 + (s_temp / max_sigma_temp) * beta_temp
     + (s_rh / max_sigma_rh) * beta_rh)%js in
  let SRI := clamp (Num 100 - term * Num 100)%js (Num 0) (Num 100) in
  let Volatility_penalty := clamp (term * Num 100)%js (Num 0) (Num 100) in
  (* GEI *)
  let corrWindow := slice_last (60 * 20) lastWindow in
  corrSeries_co2 <- series co2 corrWindow ;;
  corrSeries_no2 <- series no2 corrWindow ;;
  corrSeries_co <- series co corrWindow ;;
  corrSeries_nh3 <- series nh3 corrWindow ;;
  let corr_co2_no2 :=
    if Nat.leb 2 (length corrSeries_co2)
       && Nat.eqb (length corrSeries_no2) (length corrSeries_co2)
    then pearson corrSeries_co2 corrSeries_no2 else Num 0 in
  let corr_co_nh3 :=
    if Nat.leb 2 (length corrSeries_co)
       && Nat.eqb (length corrSeries_nh3) (length corrSeries_co)
    then pearson corrSeries_co corrSeries_nh3 else Num 0 in
  let GEI :=
    clamp (Num 100 - Math_abs corr_co2_no2 * Num 40
           - Math_abs corr_co_nh3 * Num 40)%js (Num 0) (Num 100) in
  (* GAQI *)
  let alpha_a1 := Num 0.45 in
  let alpha_a2 := Num 0.25 in
  let alpha_a3 := Num 0.2 in
  let alpha_a4 := Num 0.10 in
  let GAQI_raw :=
    (Num 100 - (alpha_a1 * AQ_penalty + alpha_a2 * TCI_penalty_pct
                + alpha_a3 * (Num 100 - GEI) + alpha_a4 * Volatility_penalty))%js in
  let GAQI := clamp GAQI_raw (Num 0) (Num 100) in
  Ok {| l_AQ_penalty := AQ_penalty; l_AQL := AQL;
        l_TCI_penalty_pct := TCI_penalty_pct; l_TCI := TCI;
        l_term := term; l_SRI := SRI;
        l_Volatility_penalty := Volatility_penalty;
        l_corr_co2_no2 := corr_co2_no2; l_corr_co_nh3 := corr_co_nh3;
        l_GEI := GEI; l_GAQI := GAQI |}.

(** The [return] statement of the [try] block. *)
Definition report (l : Locals) : IndexResult :=
  {| AQL := toFixed 2 (l_AQL l);
     AQ_penalty := toFixed 2 (l_AQ_penalty l);
     TCI := toFixed 2 (l_TCI l);
     TCI_penalty_pct := toFixed 2 (l_TCI_penalty_pct l);
     SRI := toFixed 2 (l_SRI l);
     Volatility_penalty := toFixed 2 (l_Volatility_penalty l);
     GEI := toFixed 2 (l_GEI l);
     corr_co2_no2 := toFixed 3 (l_corr_co2_no2 l);
     corr_co_nh3 := toFixed 3 (l_corr_co_nh3 l);
     GAQI := toFixed 2 (l_GAQI l) |}.

(** The object returned by the [catch] block. *)
Definition zeroResult : IndexResult :=
  {| AQL := Num 0; AQ_penalty := Num 0; TCI := Num 0; TCI_penalty_pct := Num 0;
     SRI := Num 0; Volatility_penalty := Num 0; GEI := Num 0;
     corr_co2_no2 := Num 0; corr_co_nh3 := Num 0; GAQI := Num 0 |}.

(** The [try] block. *)
Definition computeIndices_try (state : Measures) (lastWindow : list Entry)
  : result IndexResult :=
  l <- computeIndices_locals state lastWindow ;; Ok (report l).

(** [computeIndices(state, lastWindow)]: [try { ... } catch (err) { ... }]. *)
Definition computeIndices (state : Measures) (lastWindow : list Entry) : IndexResult :=
  match computeIndices_try state lastWindow with
  | Ok r => r
  | Throw _ => zeroResult
  end.

(** A window of the history buffer: every entry has its measures. *)
Definition well_formed (w : list Entry) : Prop :=
  Forall (fun s => measures s <> None) w.

End Indices.

(** ** The real numbers computed by the statistics

    What [mean], [std] and the loop of [pearson] compute when no [NaN]
    arises; the lemmas below show that none does. *)

Module Val.

Definition sum (l : list R) : R := fold_right Rplus 0 l.

Definition mean (l : list R) : R :=
  if Nat.eqb (length l) 0 then 0 else sum l / INR (length l).

(** [dot ma mb a b] is the sum of the products [(a[i] - ma) * (b[i] - mb)]. *)
Fixpoint dot (ma mb : R) (a b : list R) : R :=
  match a, b with
  | x :: a', y :: b' => (x - ma) * (y - mb) + dot ma mb a' b'
  | _, _ => 0
  end.

(** Sum of the squared deviations from the mean. *)
Definition ssq (l : list R) : R := dot (mean l) (mean l) l l.

(** Sum of the products of the deviations of two series. *)
Definition cov (a b : list R) : R := dot (mean a) (mean b) a b.

Definition std (l : list R) : R :=
  if Nat.eqb (length l) 0 then 0 else sqrt (ssq l / INR (length l)).

(** The deviations from the mean. *)
Definition centered (l : list R) : list R := map (fun x => x - mean l) l.

(** [clamp(x, 0, 100)] on a real number. *)
Definition clampR (x : R) : R := Rmax 0 (Rmin 100 x).

(** The field [k] of the measures of an entry that has them. *)
Definition get (k : Indices.Measures -> option R) (s : Indices.Entry) : option R :=
  match Indices.measures s with Some m => k m | None => None end.

(** The values of the field [k] that are present in a window. *)
Definition series (k : Indices.Measures -> option R) (w : list Indices.Entry) : list R :=
  Indices.filter_present (map (get k) w).

(** The standard deviation of the field [k] over the last 60 entries, 0 when
    fewer than 2 values are present. *)
Definition sigma (k : Indices.Measures -> option R) (w : list Indices.Entry) : R :=
  let xs := series k (Indices.slice_last 60 w) in
  if Nat.leb 2 (length xs) then std xs else 0.

(** The weighted volatility term. *)
Definition term (w : list Indices.Entry) : R :=
  sigma Indices.co2 w / 500 * 0.4 + sigma Indices.temp w / 3 * 0.3
  + sigma Indices.rh w / 10 * 0.3.

End Val.

(** Sample inputs: a state with two fields missing, a window of two ticks,
    and an object that lacks its [measures]. *)
Module Sample.

Import Indices.

Definition state : Measures :=
  {| co2 := Some 1300; no2 := Some 40; nh3 := None; co := Some 10;
     temp := Some 25; rh := None; pres := Some 1013 |}.

Definition earlier : Measures :=
  {| co2 := Some 1200; no2 := Some 140; nh3 := None; co := Some 9;
     temp := Some 24; rh := None; pres := Some 1012 |}.

Definition window : list Entry :=
  [ {| timestamp := 0; measures := Some earlier |};
    {| timestamp := 1000; measures := Some state |} ].

Definition broken : Entry := {| timestamp := 2000; measures := None |}.

(** Every reading at its good threshold or comfort set-point. *)
Definition neutral : Measures :=
  {| co2 := Some 600; no2 := Some 40; nh3 := Some 0.01; co := Some 0.5;
     temp := Some 22; rh := Some 50; pres := Some 1013 |}.

(** Every pollutant at its bad threshold. *)
Definition polluted : Measures :=
  {| co2 := Some 2000; no2 := Some 200; nh3 := Some 0.1; co := Some 10;
     temp := Some 22; rh := Some 50; pres := Some 1013 |}.

End Sample.

(** ** server.js: simulator, time windows and endpoints *)

From Stdlib Require Import Sorted.

Module Server.

(** [vary(value, delta, min, max)], with [u] the draw of [Math.random()].
    Only sums, products, comparisons and [toFixed] occur: on finite numbers
    the result is a finite number. *)
Definition vary (u value delta min max : R) : R :=
  let change := (u * 2 - 1) * delta in
  let newVal := value + change in
  let newVal := if Rlt_dec newVal min then min + (min - newVal) * 0.2 else newVal in
  let newVal := if Rlt_dec max newVal then max - (newVal - max) * 0.2 else newVal in
  toFixed_val 3 newVal.

(** The simulated state [state]: seven numbers. *)
Record State : Type := {
  co2 : R;
  no2 : R;
  nh3 : R;
  co : R;
  temp : R;
  rh : R;
  pres : R
}.

(** [let state = { co2: 600, no2: 40, nh3: 0.02, ... }] *)
Definition initial : State :=
  {| co2 := 600; no2 := 40; nh3 := 0.02; co := 0.5;
     temp := 22.5; rh := 50; pres := 1013 |}.

(** The seven draws of [Math.random()] of one tick, in the order of the
    calls. *)
Record Draws : Type := {
  u_co2 : R;
  u_no2 : R;
  u_nh3 : R;
  u_co : R;
  u_temp : R;
  u_rh : R;
  u_pres : R
}.

(** The seven assignments [state.k = vary(state.k, ...)] of the tick, as in
    the revisions of [server.js] that keep a history ([temp] varies by 0.12;
    the revision without history passes 0.1). *)
Definition tick_state (u : Draws) (state : State) : State :=
  {| co2 := vary (u_co2 u) (co2 state) 20 450 1500;
     no2 := vary (u_no2 u) (no2 state) 2 20 120;
     nh3 := vary (u_nh3 u) (nh3 state) 0.002 0.01 0.08;
     co := vary (u_co u) (co state) 0.05 0.2 3;
     temp := vary (u_temp u) (temp state) 0.12 19 26;
     rh := vary (u_rh u) (rh state) 0.3 35 65;
     pres := vary (u_pres u) (pres state) 0.05 1008 1018 |}.

(** [Math.random()] returns a number in [0, 1). *)
Definition random_draw (u : R) : Prop := 0 <= u < 1.

Definition valid_draws (u : Draws) : Prop :=
  random_draw (u_co2 u) /\ random_draw (u_no2 u) /\ random_draw (u_nh3 u)
  /\ random_draw (u_co u) /\ random_draw (u_temp u) /\ random_draw (u_rh u)
  /\ random_draw (u_pres u).

(** Every reading within the [min] and [max] that the tick passes to
    [vary]. *)
Definition in_range (s : State) : Prop :=
  450 <= co2 s <= 1500 /\ 20 <= no2 s <= 120 /\ 0.01 <= nh3 s <= 0.08
  /\ 0.2 <= co s <= 3 /\ 19 <= temp s <= 26 /\ 35 <= rh s <= 65
  /\ 1008 <= pres s <= 1018.

(** [{ ...state }] as the measures of a history entry. *)
Definition measures_of (state : State) : Indices.Measures :=
  {| Indices.co2 := Some (co2 state); Indices.no2 := Some (no2 state);
     Indices.nh3 := Some (nh3 state); Indices.co := Some (co state);
     Indices.temp := Some (temp state); Indices.rh := Some (rh state);
     Indices.pres := Some (pres state) |}.

(** The state and the history buffer. *)
Record System : Type := {
  state : State;
  history : list Indices.Entry
}.

Definition start : System := {| state := initial; history := [] |}.

(** The callback of [setInterval]: the state varies, then the entry
    [{ timestamp, measures: { ...state } }] is pushed; [now] is the clock, in
    milliseconds.  The buffer has the capacity [HISTORY_SECONDS] of the first
    revision. *)
Definition tick (now : Z) (u : Draws) (sys : System) : System :=
  let state := tick_state u (state sys) in
  let entry := {| Indices.timestamp := now;
                  Indices.measures := Some (measures_of state) |} in
  {| state := state;
     history := History.pushHistory History.HISTORY_SECONDS (history sys) entry |}.

(** The system after the ticks of [events], each with its clock and draws. *)
Definition run (events : list (Z * Draws)) (sys : System) : System :=
  fold_left (fun sys e => tick (fst e) (snd e) sys) events sys.

(** The entries that the ticks of [events] push, in order, from the state
    [state]. *)
Fixpoint entries (events : list (Z * Draws)) (state : State) : list Indices.Entry :=
  match events with
  | [] => []
  | (now, u) :: events' =>
      let state := tick_state u state in
      {| Indices.timestamp := now; Indices.measures := Some (measures_of state) |}
      :: entries events' state
  end.

(** Timestamps in non-decreasing order. *)
Definition chronological (history : list Indices.Entry) : Prop :=
  StronglySorted Z.le (map Indices.timestamp history).

(** [windowSeconds(sec)] for an integer [sec]: the entries not older than
    [sec] seconds at the time [now] of [Date.now()]; a timestamp is the
    number of milliseconds that [new Date(h.timestamp).getTime()] reads. *)
Definition windowSeconds (now sec : Z) (history : list Indices.Entry)
  : list Indices.Entry :=
  let len := length history in
  if Nat.eqb len 0 then []
  else
    let cutoff := (now - sec * 1000)%Z in
    filter (fun h => Z.leb cutoff (Indices.timestamp h)) history.

(** An entry pushed by a tick: the copy of a state within range. *)
Definition simulated (e : Indices.Entry) : Prop :=
  exists s : State, Indices.measures e = Some (measures_of s) /\ in_range s.

(** The invariant of the simulation. *)
Definition sound (sys : System) : Prop :=
  in_range (state sys)
  /\ Forall simulated (history sys)
  /\ (length (history sys) <= History.HISTORY_SECONDS)%nat.

(** Sample draws: every draw 0.5 (no change), every draw 0 (the largest
    decrease). *)
Definition steady : Draws :=
  {| u_co2 := 0.5; u_no2 := 0.5; u_nh3 := 0.5; u_co := 0.5;
     u_temp := 0.5; u_rh := 0.5; u_pres := 0.5 |}.

Definition lowest : Draws :=
  {| u_co2 := 0; u_no2 := 0; u_nh3 := 0; u_co := 0;
     u_temp := 0; u_rh := 0; u_pres := 0 |}.

(** The [indices] of the answer of [/data] and of [/gaqi-breakdown]. *)
Definition data_indices (now : Z) (sys : System) : Indices.IndexResult :=
  let lastWindow := windowSeconds now 60 (history sys) in
  Indices.computeIndices (measures_of (state sys)) lastWindow.

(** The name of a measure, as in [measures[xVar]]; only the seven names of
    the measures are considered. *)
Inductive Field : Type :=
  | f_co2 | f_no2 | f_nh3 | f_co | f_temp | f_rh | f_pres.

Definition field (v : Field) (m : Indices.Measures) : option R :=
  match v with
  | f_co2 => Indices.co2 m
  | f_no2 => Indices.no2 m
  | f_nh3 => Indices.nh3 m
  | f_co => Indices.co m
  | f_temp => Indices.temp m
  | f_rh => Indices.rh m
  | f_pres => Indices.pres m
  end.

(** [x || 0] on a reading. *)
Definition or0 (x : option R) : R :=
  match x with Some v => v | None => 0 end.

(** [x > c] on a reading: false when the reading is missing. *)
Definition above (x : option R) (c : R) : bool :=
  match x with
  | Some v => if Rlt_dec c v then true else false
  | None => false
  end.

(** A point of [/scatterbar]; [event] is true for ["spike"], false for
    [null]. *)
Record Point : Type := {
  p_timestamp : Z;
  p_x : option R;
  p_y : option R;
  p_co2 : option R;
  p_no2 : option R;
  p_nh3 : option R;
  p_co : option R;
  p_total : R;
  p_event : bool
}.

(** The object pushed for the entry with timestamp [ts] and measures [m]. *)
Definition point (xVar yVar : Field) (ts : Z) (m : Indices.Measures) : Point :=
  let total := or0 (Indices.co2 m) + or0 (Indices.no2 m) + or0 (Indices.nh3 m)
               + or0 (Indices.co m) in
  {| p_timestamp := ts;
     p_x := field xVar m;
     p_y := field yVar m;
     p_co2 := Indices.co2 m;
     p_no2 := Indices.no2 m;
     p_nh3 := Indices.nh3 m;
     p_co := Indices.co m;
     p_total := toFixed_val 3 total;
     p_event := above (Indices.co2 m) 1200 || above (Indices.no2 m) 150 |}.

(** [slice[i]] for an integer [i]: [undefined] outside of the array. *)
Definition at_index {A : Type} (slice : list A) (i : Z) : option A :=
  if (i <? 0)%Z then None else nth_error slice (Z.to_nat i).

(** The loop [for (let i = 0; i < slice.length; i += step)] of
    [/scatterbar], from the index [i] with the points pushed so far, for an
    integer [step].  [None]: the loop is still running after [fuel]
    iterations; [Some (Throw e)]: it threw; [Some (Ok points)]: it ended.
    The list [points] has no bound, while an array of the script has at
    most 2^32 - 1 elements and the memory less room than that: the loop
    is described for the runs that push each entry of the window at most
    once. *)
Fixpoint scatter_loop (fuel : nat) (xVar yVar : Field) (step : Z)
    (slice : list Indices.Entry) (i : Z) (points : list Point)
  : option (Indices.result (list Point)) :=
  match fuel with
  | O => None
  | S fuel' =>
      if (i <? Z.of_nat (length slice))%Z then
        match at_index slice i with
        | None => scatter_loop fuel' xVar yVar step slice (i + step)%Z points
        | Some s =>
            match Indices.measures s with
            | None => Some (Indices.Throw Indices.TypeError)
            | Some m =>
                scatter_loop fuel' xVar yVar step slice (i + step)%Z
                  (points ++ [point xVar yVar (Indices.timestamp s) m])
            end
        end
      else Some (Indices.Ok points)
  end.

(** The points of [/scatterbar] on the window [slice]. *)
Definition scatterbar (fuel : nat) (xVar yVar : Field) (step : Z)
    (slice : list Indices.Entry) : option (Indices.result (list Point)) :=
  scatter_loop fuel xVar yVar step slice 0 [].

(** The elements at the indices [0], [step], [2 step], ... of a list of at
    most [n] elements. *)
Fixpoint every {A : Type} (step : nat) (l : list A) (n : nat) : list A :=
  match n with
  | O => []
  | S n' =>
      match l with
      | [] => []
      | s :: _ => s :: every step (skipn step l) n'
      end
  end.

(** The entry [{ timestamp, measures }] of a timestamp and its measures. *)
Definition entry_of (tm : Z * Indices.Measures) : Indices.Entry :=
  {| Indices.timestamp := fst tm; Indices.measures := Some (snd tm) |}.

(** [r || 0] on a number: [NaN] and 0 give 0. *)
Definition or_zero (r : num) : num :=
  match r with Num x => Num x | NaN => Num 0 end.

(** The coefficient that [/corr] stores for the series [a] and [b]:
    [parseFloat((r || 0).toFixed(3))] with
    [r = (a.length >= 2 && b.length >= 2 && a.length === b.length) ?
    pearson(a, b) : 0]. *)
Definition corr_entry (a b : list R) : num :=
  let r :=
    if Nat.leb 2 (length a) && Nat.leb 2 (length b)
       && Nat.eqb (length a) (length b)
    then Stats.pearson a b else Num 0 in
  toFixed 3 (or_zero r).

(** The same coefficient in the later revision of [/corr], which computes
    the correlation in line instead of calling [pearson]. *)
Definition corr_entry_inline (a b : list R) : num :=
  let r :=
    if Nat.leb 2 (length a) && Nat.eqb (length a) (length b) then
      let n := of_nat (length a) in
      let ma := (Stats.sum a / n)%js in
      let mb := (Stats.sum b / n)%js in
      let s := Stats.pearson_loop ma mb a b
                 {| Stats.acc_num := Num 0; Stats.denA := Num 0;
                    Stats.denB := Num 0 |} in
      let den := Math_sqrt (Stats.denA s * Stats.denB s)%js in
      if (den === Num 0)%js then Num 0 else (Stats.acc_num s / den)%js
    else Num 0 in
  toFixed 3 (or_zero r).



End Server.

(** ** The penalties of a state, as real numbers *)

Module Score.

Import Indices.

(** The pollutant penalty of a reading. *)
Definition penalty (x : option R) (good bad : R) : R :=
  match x with
  | None => 0
  | Some x =>
      if Rle_dec x good then 0
      else Val.clampR ((x - good) / (bad - good) * 100)
  end.

Definition AQ_penalty (state : Measures) : R :=
  penalty (co2 state) 600 2000 * 0.5 + penalty (no2 state) 40 200 * 0.25
  + penalty (nh3 state) 0.01 0.1 * 0.15 + penalty (co state) 0.5 10 * 0.10.

(** The weighted distance of a reading to its set-point. *)
Definition deviation (x : option R) (set_point weight : R) : R :=
  match x with
  | None => 0
  | Some t => Rabs (t - set_point) * weight
  end.

Definition raw_tci (state : Measures) : R :=
  deviation (temp state) 22 2.5 + deviation (rh state) 50 0.5
  + deviation (pres state) 1013 0.02.

Definition TCI_penalty_pct (state : Measures) : R :=
  Val.clampR (raw_tci state / 76 * 100).

(** A missing reading replaced by [d]. *)
Definition or_else (x : option R) (d : R) : option R :=
  match x with Some _ => x | None => Some d end.

(** The state with every missing pollutant at its good threshold and every
    missing comfort reading at its set-point. *)
Definition fill_neutral (state : Measures) : Measures :=
  {| co2 := or_else (co2 state) 600; no2 := or_else (no2 state) 40;
     nh3 := or_else (nh3 state) 0.01; co := or_else (co state) 0.5;
     temp := or_else (temp state) 22; rh := or_else (rh state) 50;
     pres := or_else (pres state) 1013 |}.

(** [a] is missing or at most [b]. *)
Definition reading_le (a b : option R) : Prop :=
  match a, b with
  | None, _ => True
  | Some x, Some y => x <= y
  | Some _, None => False
  end.

(** The pollutant readings of [s'] are at least those of [s]. *)
Definition more_polluted (s s' : Measures) : Prop :=
  reading_le (co2 s) (co2 s') /\ reading_le (no2 s) (no2 s')
  /\ reading_le (nh3 s) (nh3 s') /\ reading_le (co s) (co s').

End Score.

(** ** utils/indices.js: the two other revisions of computeIndices

    Both are modelled on complete readings: a state with its seven numbers
    and window entries with their seven numbers. *)

Module Revisions.

Import Stats Indices.

(** *** The revision without guards *)

Definition pollutantPenalty (x good bad : R) : num :=
  if (Num x <=? Num good)%js then Num 0
  else
    let p := ((Num x - Num good) / (Num bad - Num good))%js in
    clamp (p * Num 100)%js (Num 0) (Num 100).

(** [win.map(s => s.measures[k])] *)
Definition column (k : Server.State -> R) (win : list (Z * Server.State)) : list R :=
  map (fun s => k (snd s)) win.

(** [computeIndices(state, lastWindow)] without the tests on missing
    fields and without [try]: on complete readings the filters of the
    correlation series keep every value. *)
Definition computeIndices_unguarded (state : Server.State)
    (lastWindow : list (Z * Server.State)) : IndexResult :=
  (* AQL *)
  let p_co2 := pollutantPenalty (Server.co2 state) (fst (th CO2)) (snd (th CO2)) in
  let p_no2 := pollutantPenalty (Server.no2 state) (fst (th NO2)) (snd (th NO2)) in
  let p_nh3 := pollutantPenalty (Server.nh3 state) (fst (th NH3)) (snd (th NH3)) in
  let p_co := pollutantPenalty (Server.co state) (fst (th CO)) (snd (th CO)) in
  let AQ_penalty :=
    (p_co2 * Num (weightsPoll CO2) + p_no2 * Num (weightsPoll NO2)
     + p_nh3 * Num (weightsPoll NH3) + p_co * Num (weightsPoll CO))%js in
  let AQL := clamp (Num 100 - AQ_penalty)%js (Num 0) (Num 100) in
  (* TCI *)
  let raw_tci :=
    (Math_abs (Num (Server.temp state) - Num 22) * Num 2.5
     + Math_abs (Num (Server.rh state) - Num 50) * Num 0.5
     + Math_abs (Num (Server.pres state) - Num 1013) * Num 0.02)%js in
  let max_raw := Num 76 in
  let TCI_penalty_pct := clamp (raw_tci / max_raw * Num 100)%js (Num 0) (Num 100) in
  let TCI := clamp (Num 100 - TCI_penalty_pct)%js (Num 0) (Num 100) in
  (* SRI *)
  let last60 := slice_last 60 lastWindow in
  let co2_series := column Server.co2 last60 in
  let temp_series := column Server.temp last60 in
  let rh_series := column Server.rh last60 in
  let s_co2 := if Nat.leb 2 (length co2_series) then std co2_series else Num 0 in
  let s_temp := if Nat.leb 2 (length temp_series) then std temp_series else Num 0 in
  let s_rh := if Nat.leb 2 (length rh_series) then std rh_series else Num 0 in
  let term :=
    ((s_co2 / Num 500) * Num 0.4 + (s_temp / Num 3) * Num 0.3
     + (s_rh / Num 10) * Num 0.3)%js in
  let SRI := clamp (Num 100 - term * Num 100)%js (Num 0) (Num 100) in
  let Volatility_penalty := clamp (term * Num 100)%js (Num 0) (Num 100) in
  (* GEI *)
  let corrWindow := slice_last (60 * 20) lastWindow in
  let corrSeries_co2 := column Server.co2 corrWindow in
  let corrSeries_no2 := column Server.no2 corrWindow in
  let corrSeries_co := column Server.co corrWindow in
  let corrSeries_nh3 := column Server.nh3 corrWindow in
  let corr_co2_no2 :=
    if Nat.leb 2 (length corrSeries_co2)
       && Nat.eqb (length corrSeries_no2) (length corrSeries_co2)
    then pearson corrSeries_co2 corrSeries_no2 else Num 0 in
  let corr_co_nh3 :=
    if Nat.leb 2 (length corrSeries_co)
       && Nat.eqb (length corrSeries_nh3) (length corrSeries_co)
    then pearson corrSeries_co corrSeries_nh3 else Num 0 in
  let GEI :=
    clamp (Num 100 - Math_abs corr_co2_no2 * Num 40
           - Math_abs corr_co_nh3 * Num 40)%js (Num 0) (Num 100) in
  (* GAQI *)
  let GAQI_raw :=
    (Num 100 - (Num 0.45 * AQ_penalty + Num 0.25 * TCI_penalty_pct
                + Num 0.2 * (Num 100 - GEI) + Num 0.10 * Volatility_penalty))%js in
  let GAQI := clamp GAQI_raw (Num 0) (Num 100) in
  {| AQL := toFixed 2 AQL;
     AQ_penalty := toFixed 2 AQ_penalty;
     TCI := toFixed 2 TCI;
     TCI_penalty_pct := toFixed 2 TCI_penalty_pct;
     SRI := toFixed 2 SRI;
     Volatility_penalty := toFixed 2 Volatility_penalty;
     GEI := toFixed 2 GEI;
     corr_co2_no2 := toFixed 3 corr_co2_no2;
     corr_co_nh3 := toFixed 3 corr_co_nh3;
     GAQI := toFixed 2 GAQI |}.

(** The window of complete entries as a window of entries. *)
Definition window_of (w : list (Z * Server.State)) : list Entry :=
  map (fun s => Server.entry_of (fst s, Server.measures_of (snd s))) w.

(** *** The revision with random placeholders *)

(** [Math.round]: the nearest integer, the larger one on a tie. *)
Definition Math_round (a : num) : num :=
  match a with Num x => Num (IZR (round_half_up x)) | NaN => NaN end.

(** [round(v)]: [Math.round(v * 10) / 10]. *)
Definition round (v : num) : num := (Math_round (v * Num 10) / Num 10)%js.

(** [penalty(x, g, b)]: [Math.max(0, Math.min(1, (x - g) / (b - g))) * 100]. *)
Definition penalty (x g b : R) : num :=
  (Math_max (Num 0) (Math_min (Num 1) ((Num x - Num g) / (Num b - Num g)))
   * Num 100)%js.

(** The five draws of [Math.random()] of one call, in the order of the
    calls. *)
Record Random : Type := {
  r_corr1 : R;
  r_corr2 : R;
  r_co2 : R;
  r_temp : R;
  r_rh : R
}.

Definition valid_random (r : Random) : Prop :=
  Server.random_draw (r_corr1 r) /\ Server.random_draw (r_corr2 r)
  /\ Server.random_draw (r_co2 r) /\ Server.random_draw (r_temp r)
  /\ Server.random_draw (r_rh r).

(** The five scores returned. *)
Record Scores : Type := {
  s_AQL : num;
  s_GEI : num;
  s_TCI : num;
  s_SRI : num;
  s_GAQI : num
}.

(** [computeIndices(data)] with random placeholders for the correlations
    and the standard deviations. *)
Definition computeIndices_random (r : Random) (data : Server.State) : Scores :=
  (* AQL *)
  let p_co2 := penalty (Server.co2 data) 600 2000 in
  let p_no2 := penalty (Server.no2 data) 40 200 in
  let p_nh3 := penalty (Server.nh3 data) 0.01 0.1 in
  let p_co := penalty (Server.co data) 0.5 10 in
  let AQ_penalty :=
    (Num 0.5 * p_co2 + Num 0.25 * p_no2 + Num 0.15 * p_nh3 + Num 0.1 * p_co)%js in
  let AQL := (Num 100 - AQ_penalty)%js in
  (* TCI *)
  let raw :=
    (Math_abs (Num (Server.temp data) - Num 22) * Num 2.5
     + Math_abs (Num (Server.rh data) - Num 50) * Num 0.5
     + Math_abs (Num (Server.pres data) - Num 1013) * Num 0.02)%js in
  let TCI_penalty := Math_min (Num 100) ((raw / Num 76) * Num 100)%js in
  let TCI := (Num 100 - TCI_penalty)%js in
  (* GEI *)
  let fakeCorr1 := (Num 0.1 + Num (r_corr1 r) * Num 0.2)%js in
  let fakeCorr2 := (Num 0.05 + Num (r_corr2 r) * Num 0.2)%js in
  let GEI :=
    (Num 100 - Math_abs fakeCorr1 * Num 40 - Math_abs fakeCorr2 * Num 40)%js in
  (* SRI *)
  let sigma_co2 := (Num (r_co2 r) * Num 50)%js in
  let sigma_temp := (Num (r_temp r) * Num 0.5)%js in
  let sigma_rh := (Num (r_rh r) * Num 2)%js in
  let term :=
    ((sigma_co2 / Num 500) * Num 0.4 + (sigma_temp / Num 3) * Num 0.3
     + (sigma_rh / Num 10) * Num 0.3)%js in
  let SRI := Math_max (Num 0) (Num 100 - term * Num 100)%js in
  (* GAQI *)
  let Comfort_penalty := TCI_penalty in
  let Volatility_penalty := (Num 100 - SRI)%js in
  let GAQI :=
    (Num 100 - (Num 0.4 * AQ_penalty + Num 0.4 * Comfort_penalty
                + Num 0.2 * Volatility_penalty))%js in
  {| s_AQL := round AQL; s_GEI := round GEI; s_TCI := round TCI;
     s_SRI := round SRI; s_GAQI := round GAQI |}.

(** Sample draws: every draw 0.5. *)
Definition middle : Random :=
  {| r_corr1 := 0.5; r_corr2 := 0.5; r_co2 := 0.5; r_temp := 0.5; r_rh := 0.5 |}.

End Revisions.

(** ** utils/indices.js in binary64 arithmetic

    The statistics and [computeIndices] once more, on the numbers that the
    script computes with: IEEE 754 binary64 with round to nearest even, the
    infinities, the two zeros and [NaN].  The definitions follow the source
    statement by statement, like those of [Stats] and [Indices]; only the
    numbers differ.  A decimal literal denotes the nearest double, as it
    does in the script. *)

Module Binary64.

Import Floats.
Local Open Scope float_scope.
#[local] Set Warnings "-inexact-float".

(** [Math.max], [Math.min]: [NaN] as soon as one argument is [NaN]; of the
    two zeros, [+0] is the larger. *)
Definition Math_max (a b : float) : float :=
  if is_nan a || is_nan b then nan
  else if a <? b then b
  else if b <? a then a
  else if is_zero a then (if get_sign a then b else a)
  else a.

Definition Math_min (a b : float) : float :=
  if is_nan a || is_nan b then nan
  else if a <? b then a
  else if b <? a then b
  else if is_zero a then (if get_sign a then a else b)
  else a.

(** An integer from 0 to 2^53 as a number: the conversion is exact. *)
Definition of_Z (n : Z) : float := of_uint63 (Uint63.of_Z n).

(** [arr.length] used as a number. *)
Definition of_nat (n : nat) : float := of_Z (Z.of_nat n).

(** The integer [n] for which [n / 10^d] is closest to [m * 2^e], the larger
    one on a tie: the digits that [toFixed(d)] prints for [m * 2^e]. *)
Definition digits (d : nat) (m e : Z) : Z :=
  let p := (m * 10 ^ Z.of_nat d)%Z in
  if (0 <=? e)%Z then (p * 2 ^ e)%Z
  else ((2 * p + 2 ^ (- e)) / 2 ^ (- e + 1))%Z.

(** [Number(x.toFixed(d))], for [d] up to 3.  [toFixed] rounds the exact
    value of the double [|x|] to [d] decimals, the larger candidate on a
    tie, and [Number] reads the decimal back as the nearest double: the
    quotient of two integers that convert exactly.  From 2^53 digits on,
    and from 10^21 on, where [toFixed] prints in exponent notation, the
    doubles are more than [10^-d] apart and the result is [x]; [NaN] and the
    infinities print and read back as themselves; [-0] prints as [0]. *)
Definition toFixed (d : nat) (x : float) : float :=
  match Prim2SF x with
  | S754_finite s m e =>
      let n := digits d (Zpos m) e in
      if (n <? 2 ^ 53)%Z then
        let r := of_Z n / of_Z (10 ^ Z.of_nat d) in
        if s then - r else r
      else x
  | S754_zero _ => 0
  | S754_infinity _ | S754_nan => x
  end.

(** [arr.reduce((s,x)=>s+x,0)] *)
Definition sum (arr : list float) : float :=
  fold_left (fun s x => s + x) arr 0.

Definition mean (arr : list float) : float :=
  if Nat.eqb (length arr) 0 then 0
  else sum arr / of_nat (length arr).

Definition std (arr : list float) : float :=
  if Nat.eqb (length arr) 0 then 0
  else
    let m := mean arr in
    let v := fold_left (fun s x => s + (x - m) * (x - m)) arr 0
             / of_nat (length arr) in
    sqrt v.

(** The accumulators [num], [denA], [denB] of the loop of [pearson]. *)
Record acc : Type := { acc_num : float; denA : float; denB : float }.

Fixpoint pearson_loop (ma mb : float) (a b : list float) (s : acc) : acc :=
  match a, b with
  | x :: a', y :: b' =>
      let da := x - ma in
      let db := y - mb in
      pearson_loop ma mb a' b'
        {| acc_num := acc_num s + da * db;
           denA := denA s + da * da;
           denB := denB s + db * db |}
  | _, _ => s
  end.

(** [den === 0] holds for both zeros and for nothing else: not for [NaN],
    not for an infinity. *)
Definition pearson (a b : list float) : float :=
  if negb (Nat.eqb (length a) (length b)) || Nat.ltb (length a) 2 then 0
  else
    let ma := mean a in
    let mb := mean b in
    let s := pearson_loop ma mb a b {| acc_num := 0; denA := 0; denB := 0 |} in
    let den := sqrt (denA s * denB s) in
    if den =? 0 then 0
    else acc_num s / den.

Definition clamp (v lo hi : float) : float := Math_max lo (Math_min hi v).

Definition pollutantPenalty (x : option float) (good bad : float) : float :=
  match x with
  | None => 0
  | Some x =>
      if x <=? good then 0
      else
        let p := (x - good) / (bad - good) in
        clamp (p * 100) 0 100
  end.

Record Measures : Type := {
  co2 : option float;
  no2 : option float;
  nh3 : option float;
  co : option float;
  temp : option float;
  rh : option float;
  pres : option float
}.

Record Entry : Type := {
  timestamp : Z;
  measures : option Measures
}.

(** [s.measures[k]] *)
Definition get_measure (k : Measures -> option float) (s : Entry)
  : Indices.result (option float) :=
  match measures s with
  | Some m => Indices.Ok (k m)
  | None => Indices.Throw Indices.TypeError
  end.

Fixpoint filter_present (l : list (option float)) : list float :=
  match l with
  | [] => []
  | Some x :: l' => x :: filter_present l'
  | None :: l' => filter_present l'
  end.

Definition series (k : Measures -> option float) (win : list Entry)
  : Indices.result (list float) :=
  Indices.bind (Indices.mapM (get_measure k) win)
               (fun xs => Indices.Ok (filter_present xs)).

Record Locals : Type := {
  l_AQ_penalty : float;
  l_AQL : float;
  l_TCI_penalty_pct : float;
  l_TCI : float;
  l_term : float;
  l_SRI : float;
  l_Volatility_penalty : float;
  l_corr_co2_no2 : float;
  l_corr_co_nh3 : float;
  l_GEI : float;
  l_GAQI : float
}.

Record IndexResult : Type := {
  AQL : float;
  AQ_penalty : float;
  TCI : float;
  TCI_penalty_pct : float;
  SRI : float;
  Volatility_penalty : float;
  GEI : float;
  corr_co2_no2 : float;
  corr_co_nh3 : float;
  GAQI : float
}.

#[local] Notation "x <- m ;; k" := (Indices.bind m (fun x => k))
  (at level 61, m at next level, right associativity).

(** The statements of the [try] block up to the [return]. *)
Definition computeIndices_locals (state : Measures) (lastWindow : list Entry)
  : Indices.result Locals :=
  (* AQL *)
  let p_co2 := pollutantPenalty (co2 state) 600 2000 in
  let p_no2 := pollutantPenalty (no2 state) 40 200 in
  let p_nh3 := pollutantPenalty (nh3 state) 0.01 0.1 in
  let p_co := pollutantPenalty (co state) 0.5 10 in
  let AQ_penalty := p_co2 * 0.5 + p_no2 * 0.25 + p_nh3 * 0.15 + p_co * 0.10 in
  let AQL := clamp (100 - AQ_penalty) 0 100 in
  (* TCI *)
  let raw_tci :=
    (match temp state with None => 0 | Some t => abs (t - 22) * 2.5 end)
    + (match rh state with None => 0 | Some h => abs (h - 50) * 0.5 end)
    + (match pres state with None => 0 | Some p => abs (p - 1013) * 0.02 end) in
  let max_raw := 76 in
  let TCI_penalty_pct := clamp (raw_tci / max_raw * 100) 0 100 in
  let TCI := clamp (100 - TCI_penalty_pct) 0 100 in
  (* SRI *)
  let last60 := Indices.slice_last 60 lastWindow in
  co2_series <- series co2 last60 ;;
  temp_series <- series temp last60 ;;
  rh_series <- series rh last60 ;;
  let s_co2 := if Nat.leb 2 (length co2_series) then std co2_series else 0 in
  let s_temp := if Nat.leb 2 (length temp_series) then std temp_series else 0 in
  let s_rh := if Nat.leb 2 (length rh_series) then std rh_series else 0 in
  let term := (s_co2 / 500) * 0.4 + (s_temp / 3) * 0.3 + (s_rh / 10) * 0.3 in
  let SRI := clamp (100 - term * 100) 0 100 in
  let Volatility_penalty := clamp (term * 100) 0 100 in
  (* GEI *)
  let corrWindow := Indices.slice_last (60 * 20) lastWindow in
  corrSeries_co2 <- series co2 corrWindow ;;
  corrSeries_no2 <- series no2 corrWindow ;;
  corrSeries_co <- series co corrWindow ;;
  corrSeries_nh3 <- series nh3 corrWindow ;;
  let corr_co2_no2 :=
    if Nat.leb 2 (length corrSeries_co2)
       && Nat.eqb (length corrSeries_no2) (length corrSeries_co2)
    then pearson corrSeries_co2 corrSeries_no2 else 0 in
  let corr_co_nh3 :=
    if Nat.leb 2 (length corrSeries_co)
       && Nat.eqb (length corrSeries_nh3) (length corrSeries_co)
    then pearson corrSeries_co corrSeries_nh3 else 0 in
  let GEI := clamp (100 - abs corr_co2_no2 * 40 - abs corr_co_nh3 * 40) 0 100 in
  (* GAQI *)
  let GAQI_raw :=
    100 - (0.45 * AQ_penalty + 0.25 * TCI_penalty_pct + 0.2 * (100 - GEI)
           + 0.10 * Volatility_penalty) in
  let GAQI := clamp GAQI_raw 0 100 in
  Indices.Ok
    {| l_AQ_penalty := AQ_penalty; l_AQL := AQL;
       l_TCI_penalty_pct := TCI_penalty_pct; l_TCI := TCI;
       l_term := term; l_SRI := SRI;
       l_Volatility_penalty := Volatility_penalty;
       l_corr_co2_no2 := corr_co2_no2; l_corr_co_nh3 := corr_co_nh3;
       l_GEI := GEI; l_GAQI := GAQI |}.

(** The [return] statement of the [try] block. *)
Definition report (l : Locals) : IndexResult :=
  {| AQL := toFixed 2 (l_AQL l);
     AQ_penalty := toFixed 2 (l_AQ_penalty l);
     TCI := toFixed 2 (l_TCI l);
     TCI_penalty_pct := toFixed 2 (l_TCI_penalty_pct l);
     SRI := toFixed 2 (l_SRI l);
     Volatility_penalty := toFixed 2 (l_Volatility_penalty l);
     GEI := toFixed 2 (l_GEI l);
     corr_co2_no2 := toFixed 3 (l_corr_co2_no2 l);
     corr_co_nh3 := toFixed 3 (l_corr_co_nh3 l);
     GAQI := toFixed 2 (l_GAQI l) |}.

(** The object returned by the [catch] block. *)
Definition zeroResult : IndexResult :=
  {| AQL := 0; AQ_penalty := 0; TCI := 0; TCI_penalty_pct := 0;
     SRI := 0; Volatility_penalty := 0; GEI := 0;
     corr_co2_no2 := 0; corr_co_nh3 := 0; GAQI := 0 |}.

(** [computeIndices(state, lastWindow)]: [try { ... } catch (err) { ... }]. *)
Definition computeIndices (state : Measures) (lastWindow : list Entry) : IndexResult :=
  match computeIndices_locals state lastWindow with
  | Indices.Ok l => report l
  | Indices.Throw _ => zeroResult
  end.

(** [lo <= x && x <= hi]: false when [x] is [NaN]. *)
Definition within (lo hi x : float) : bool := (lo <=? x) && (x <=? hi).

(** Inputs.  Every number in them is a finite double. *)

(** Measures with the four pollutants as given and the comfort readings of
    the initial state of the simulator. *)
Definition reading (c n o h : float) : Measures :=
  {| co2 := Some c; no2 := Some n; nh3 := Some h; co := Some o;
     temp := Some 22.5; rh := Some 50; pres := Some 1013 |}.

(** The initial state of the simulator. *)
Definition initial : Measures := reading 600 40 0.5 0.02.

(** No field at all. *)
Definition missing : Measures :=
  {| co2 := None; no2 := None; nh3 := None; co := None;
     temp := None; rh := None; pres := None |}.

(** The entries of a window, one second apart. *)
Fixpoint window_from (t : Z) (ms : list Measures) : list Entry :=
  match ms with
  | [] => []
  | m :: ms' => {| timestamp := t; measures := Some m |} :: window_from (t + 1000) ms'
  end.

(** Two entries whose [co2] and [no2] are large: the squares of their
    deviations overflow. *)
Definition large : list Entry :=
  window_from 0 [reading 1e200 1e200 0.5 0.02; reading (-1e200) (-1e200) 0.5 0.02].

(** Two entries whose pollutants are tiny: the squares of their deviations
    underflow. *)
Definition tiny : list Entry :=
  window_from 0 [reading 0 0 0 0; reading 3e-81 3e-81 3e-81 3e-81].

(** Three entries with small integers. *)
Definition integers : list Entry :=
  window_from 0 [reading 0 1 0 1; reading 0 1 0 1; reading 1 6 1 6].

(** Three entries with the same readings: no series varies. *)
Definition flat : list Entry :=
  window_from 0 [reading 0.7 0.011 0.7 0.011; reading 0.7 0.011 0.7 0.011;
                 reading 0.7 0.011 0.7 0.011].

End Binary64.

(** ** Statistics in exact arithmetic: no [NaN], and the values computed *)

Section StatsFacts.

Import Stats.

Lemma INR_length_neq_0 (A : Type) (l : list A) :
  Nat.eqb (length l) 0 = false -> INR (length l) <> 0.
Proof.
  intros H. apply Nat.eqb_neq in H. apply not_0_INR. exact H.
Qed.

Lemma INR_length_pos (A : Type) (l : list A) :
  Nat.eqb (length l) 0 = false -> 0 < INR (length l).
Proof.
  intros H. apply Nat.eqb_neq in H. apply lt_0_INR. lia.
Qed.

Lemma div_Num (x y : R) : y <> 0 -> (Num x / Num y)%js = Num (x / y).
Proof.
  intros Hy. unfold div. destruct (Req_dec_T y 0); [contradiction | reflexivity].
Qed.

Lemma sqrt_Num (x : R) : 0 <= x -> Math_sqrt (Num x) = Num (sqrt x).
Proof.
  intros Hx. unfold Math_sqrt. destruct (Rlt_dec x 0); [lra | reflexivity].
Qed.

Lemma sum_fold (l : list R) (s : R) :
  fold_left (fun s x => (s + Num x)%js) l (Num s) = Num (s + Val.sum l).
Proof.
  revert s. induction l as [| x l IH]; intros s; simpl.
  - f_equal. lra.
  - rewrite IH. f_equal. lra.
Qed.

Lemma sum_val (l : list R) : sum l = Num (Val.sum l).
Proof.
  unfold sum. rewrite sum_fold. f_equal. lra.
Qed.

Lemma mean_val (l : list R) : mean l = Num (Val.mean l).
Proof.
  unfold mean, Val.mean. destruct (Nat.eqb (length l) 0) eqn:E; [reflexivity |].
  rewrite sum_val. unfold of_nat. apply div_Num. now apply INR_length_neq_0.
Qed.

Lemma ssq_fold (m : R) (l : list R) (s : R) :
  fold_left (fun s x => (s + (Num x - Num m) * (Num x - Num m))%js) l (Num s)
  = Num (s + Val.dot m m l l).
Proof.
  revert s. induction l as [| x l IH]; intros s; simpl.
  - f_equal. lra.
  - rewrite IH. f_equal. lra.
Qed.

Lemma dot_self_nonneg (m : R) (l : list R) : 0 <= Val.dot m m l l.
Proof.
  induction l as [| x l IH]; simpl; [lra |].
  pose proof (Rle_0_sqr (x - m)) as H. unfold Rsqr in H. lra.
Qed.

Lemma std_val (l : list R) : std l = Num (Val.std l).
Proof.
  unfold std, Val.std. destruct (Nat.eqb (length l) 0) eqn:E; [reflexivity |].
  cbv zeta. rewrite mean_val, ssq_fold. unfold of_nat.
  rewrite div_Num by now apply INR_length_neq_0.
  rewrite Rplus_0_l. apply sqrt_Num.
  apply Rmult_le_pos; [apply dot_self_nonneg |].
  left. apply Rinv_0_lt_compat. now apply INR_length_pos.
Qed.

Lemma std_val_nonneg (l : list R) : 0 <= Val.std l.
Proof.
  unfold Val.std. destruct (Nat.eqb (length l) 0); [lra | apply sqrt_pos].
Qed.


Lemma pearson_loop_val (ma mb : R) (a b : list R) (n dA dB : R) :
  length a = length b ->
  pearson_loop (Num ma) (Num mb) a b
    {| acc_num := Num n; denA := Num dA; denB := Num dB |}
  = {| acc_num := Num (n + Val.dot ma mb a b);
       denA := Num (dA + Val.dot ma ma a a);
       denB := Num (dB + Val.dot mb mb b b) |}.
Proof.
  revert b n dA dB. induction a as [| x a IH]; intros [| y b] n dA dB Hlen;
    simpl in Hlen; try discriminate; simpl.
  - f_equal; f_equal; lra.
  - injection Hlen as Hlen. rewrite IH by exact Hlen. f_equal; f_equal; lra.
Qed.

(** One step of the induction for Cauchy-Schwarz. *)
Lemma cauchy_schwarz_step (A B C u v : R) :
  0 <= A -> 0 <= B -> C * C <= A * B ->
  (u * v + C) * (u * v + C) <= (u * u + A) * (v * v + B).
Proof.
  intros HA HB HC.
  pose proof (Rle_0_sqr u) as Huu. pose proof (Rle_0_sqr v) as Hvv.
  unfold Rsqr in Huu, Hvv.
  assert (HAv : 0 <= A * (v * v)) by (apply Rmult_le_pos; lra).
  assert (HBu : 0 <= B * (u * u)) by (apply Rmult_le_pos; lra).
  set (X := 2 * C * u * v). set (Y := A * (v * v) + B * (u * u)).
  assert (Hmix : X <= Y).
  { destruct (Rle_dec X 0) as [Hneg | Hpos]; [unfold Y; lra |].
    apply Rnot_le_lt in Hpos.
    assert (H2 : (C * C) * ((u * u) * (v * v)) <= (A * B) * ((u * u) * (v * v))).
    { apply Rmult_le_compat_r; [apply Rmult_le_pos; lra | lra]. }
    pose proof (Rle_0_sqr (A * (v * v) - B * (u * u))) as H3. unfold Rsqr in H3.
    assert (HX : X * X = 4 * ((C * C) * ((u * u) * (v * v)))) by (unfold X; ring).
    assert (HY : Y * Y = (A * (v * v) - B * (u * u)) * (A * (v * v) - B * (u * u))
                         + 4 * ((A * B) * ((u * u) * (v * v)))) by (unfold Y; ring).
    apply Rnot_lt_le. intros Hlt.
    assert (Hc : Y * Y < X * X).
    { apply Rmult_le_0_lt_compat; unfold Y in *; lra. }
    lra. }
  assert (HL : (u * v + C) * (u * v + C) = (u * u) * (v * v) + X + C * C)
    by (unfold X; ring).
  assert (HR : (u * u + A) * (v * v + B) = (u * u) * (v * v) + Y + A * B)
    by (unfold Y; ring).
  rewrite HL, HR. lra.
Qed.

(** Cauchy-Schwarz for the centred sums. *)
Lemma dot_cauchy_schwarz (ma mb : R) (a b : list R) :
  length a = length b ->
  Val.dot ma mb a b * Val.dot ma mb a b <= Val.dot ma ma a a * Val.dot mb mb b b.
Proof.
  revert b. induction a as [| x a IH]; intros [| y b] Hlen;
    simpl in Hlen; try discriminate; simpl.
  - lra.
  - injection Hlen as Hlen.
    apply cauchy_schwarz_step; [apply dot_self_nonneg .. | now apply IH].
Qed.

End StatsFacts.

(** ** pearson: the value returned *)

Section PearsonFacts.

Import Stats.


Lemma Rabs_le_between (x y : R) : Rabs x <= y -> - y <= x <= y.
Proof.
  unfold Rabs. destruct (Rcase_abs x); lra.
Qed.

(** On two series of one length, at least 2, [pearson] returns 0 when the
    product of the two sums of squares vanishes, and the quotient otherwise. *)
Lemma pearson_val (a b : list R) :
  length a = length b -> (2 <= length a)%nat ->
  pearson a b =
    Num (if Req_dec_T (sqrt (Val.ssq a * Val.ssq b)) 0 then 0
         else Val.cov a b / sqrt (Val.ssq a * Val.ssq b)).
Proof.
  intros Hlen Hn. unfold pearson.
  replace (Nat.eqb (length a) (length b)) with true
    by (symmetry; now apply Nat.eqb_eq).
  replace (Nat.ltb (length a) 2) with false
    by (symmetry; apply Nat.ltb_ge; exact Hn).
  cbn [negb orb]. cbv zeta.
  rewrite !mean_val, pearson_loop_val by exact Hlen.
  cbn [acc_num denA denB mul]. rewrite !Rplus_0_l.
  fold (Val.ssq a) (Val.ssq b) (Val.cov a b).
  rewrite sqrt_Num.
  2:{ apply Rmult_le_pos; apply dot_self_nonneg. }
  unfold strict_eq.
  destruct (Req_dec_T (sqrt (Val.ssq a * Val.ssq b)) 0) as [E | E];
    [reflexivity | now apply div_Num].
Qed.

Lemma cov_bound (a b : list R) :
  length a = length b ->
  Rabs (Val.cov a b) <= sqrt (Val.ssq a * Val.ssq b).
Proof.
  intros Hlen.
  rewrite <- sqrt_Rsqr_abs. apply sqrt_le_1.
  - apply Rle_0_sqr.
  - apply Rmult_le_pos; apply dot_self_nonneg.
  - unfold Rsqr. now apply dot_cauchy_schwarz.
Qed.

(** The value of [pearson] is always a real number of magnitude at most 1. *)
Lemma pearson_finite_bounded (a b : list R) :
  exists r, pearson a b = Num r /\ -1 <= r <= 1.
Proof.
  destruct (Nat.eqb (length a) (length b)) eqn:El.
  2:{ exists 0. split; [| lra]. unfold pearson. rewrite El. reflexivity. }
  destruct (Nat.ltb (length a) 2) eqn:E2.
  { exists 0. split; [| lra]. unfold pearson. rewrite El, E2. reflexivity. }
  apply Nat.eqb_eq in El. apply Nat.ltb_ge in E2.
  rewrite (pearson_val a b El E2).
  eexists. split; [reflexivity |].
  destruct (Req_dec_T (sqrt (Val.ssq a * Val.ssq b)) 0) as [E | E]; [lra |].
  pose proof (sqrt_pos (Val.ssq a * Val.ssq b)) as Hpos.
  assert (Hden : 0 < sqrt (Val.ssq a * Val.ssq b)) by lra.
  pose proof (cov_bound a b El) as Hb.
  apply Rabs_le_between in Hb.
  split.
  - apply Rmult_le_reg_r with (r := sqrt (Val.ssq a * Val.ssq b)); [exact Hden |].
    unfold Rdiv. rewrite Rmult_assoc, Rinv_l by lra. lra.
  - apply Rmult_le_reg_r with (r := sqrt (Val.ssq a * Val.ssq b)); [exact Hden |].
    unfold Rdiv. rewrite Rmult_assoc, Rinv_l by lra. lra.
Qed.

End PearsonFacts.

Section PearsonCorrelation.

Import Stats.

Lemma dot_centered (ma mb : R) (a b : list R) :
  Val.dot ma mb a b
  = Val.dot 0 0 (map (fun x => x - ma) a) (map (fun y => y - mb) b).
Proof.
  revert b. induction a as [| x a IH]; intros [| y b]; simpl; try reflexivity.
  rewrite IH. ring.
Qed.

Lemma dot_opp_r (u : list R) :
  Val.dot 0 0 u (map Ropp u) = - Val.dot 0 0 u u.
Proof.
  induction u as [| x u IH]; simpl; [ring | rewrite IH; ring].
Qed.

Lemma dot_opp_opp (u : list R) :
  Val.dot 0 0 (map Ropp u) (map Ropp u) = Val.dot 0 0 u u.
Proof.
  induction u as [| x u IH]; simpl; [ring | rewrite IH; ring].
Qed.

Lemma ssq_centered (a : list R) : Val.ssq a = Val.dot 0 0 (Val.centered a) (Val.centered a).
Proof. unfold Val.ssq, Val.centered. apply dot_centered. Qed.

Lemma cov_centered (a b : list R) :
  Val.cov a b = Val.dot 0 0 (Val.centered a) (Val.centered b).
Proof. unfold Val.cov, Val.centered. apply dot_centered. Qed.




End PearsonCorrelation.

(** ** Rounding with toFixed *)

Section Rounding.

Lemma round_half_up_spec (y : R) :
  IZR (round_half_up y) <= y + / 2 < IZR (round_half_up y) + 1.
Proof.
  unfold round_half_up. destruct (base_Int_part (y + / 2)) as [H1 H2]. lra.
Qed.

(** Rounding to the nearest integer stays between integer bounds. *)
Lemma round_half_up_between (lo hi : Z) (y : R) :
  IZR lo <= y <= IZR hi ->
  (lo <= round_half_up y <= hi)%Z.
Proof.
  intros [Hlo Hhi]. destruct (round_half_up_spec y) as [H1 H2]. split.
  - assert (H : (lo < round_half_up y + 1)%Z).
    { apply lt_IZR. rewrite plus_IZR. lra. }
    lia.
  - assert (H : (round_half_up y < hi + 1)%Z).
    { apply lt_IZR. rewrite plus_IZR. lra. }
    lia.
Qed.

Lemma pow10_pos (d : nat) : 0 < 10 ^ d.
Proof. apply pow_lt. lra. Qed.

(** [toFixed] keeps a non-negative number between two bounds that have at
    most [d] decimals. *)
Lemma toFixed_val_between (d : nat) (lo hi : Z) (x : R) :
  (0 <= lo)%Z ->
  IZR lo / 10 ^ d <= x <= IZR hi / 10 ^ d ->
  IZR lo / 10 ^ d <= toFixed_val d x <= IZR hi / 10 ^ d.
Proof.
  intros Hlo [H1 H2]. pose proof (pow10_pos d) as Hp.
  assert (H0 : 0 <= IZR lo) by (apply IZR_le in Hlo; exact Hlo).
  assert (Hx : 0 <= x).
  { apply Rle_trans with (IZR lo / 10 ^ d); [| exact H1].
    apply Rmult_le_pos; [exact H0 | left; now apply Rinv_0_lt_compat]. }
  unfold toFixed_val. destruct (Rlt_dec x 0) as [Hn | _]; [lra |].
  assert (Hy : IZR lo <= x * 10 ^ d <= IZR hi).
  { split.
    - apply Rmult_le_reg_r with (r := / 10 ^ d); [now apply Rinv_0_lt_compat |].
      rewrite Rmult_assoc, Rinv_r by lra. unfold Rdiv in H1. lra.
    - apply Rmult_le_reg_r with (r := / 10 ^ d); [now apply Rinv_0_lt_compat |].
      rewrite Rmult_assoc, Rinv_r by lra. unfold Rdiv in H2. lra. }
  destruct (round_half_up_between lo hi _ Hy) as [Hz1 Hz2].
  apply IZR_le in Hz1, Hz2. unfold Rdiv. split.
  - apply Rmult_le_compat_r; [left; now apply Rinv_0_lt_compat | exact Hz1].
  - apply Rmult_le_compat_r; [left; now apply Rinv_0_lt_compat | exact Hz2].
Qed.


Lemma round_half_up_IZR (n : Z) : round_half_up (IZR n) = n.
Proof.
  unfold round_half_up. symmetry. apply Int_part_spec. lra.
Qed.

(** A non-negative number with at most [d] decimals is unchanged. *)
Lemma toFixed_val_exact (d : nat) (n : Z) (x : R) :
  (0 <= n)%Z -> x = IZR n / 10 ^ d -> toFixed_val d x = x.
Proof.
  intros Hn ->. pose proof (pow10_pos d) as Hp.
  apply IZR_le in Hn. unfold toFixed_val.
  destruct (Rlt_dec (IZR n / 10 ^ d) 0) as [Hneg | _].
  - exfalso. apply (Rlt_not_le _ _ Hneg).
    apply Rmult_le_pos; [exact Hn | left; now apply Rinv_0_lt_compat].
  - replace (IZR n / 10 ^ d * 10 ^ d) with (IZR n) by (field; lra).
    rewrite round_half_up_IZR. reflexivity.
Qed.

End Rounding.

(** ** Properties of the statistics library *)

Section StatsProperties.

Import Stats.


Lemma pearson_short (a b : list R) :
  length a <> length b \/ (length a < 2)%nat -> pearson a b = Num 0.
Proof.
  intros H. unfold pearson.
  destruct (Nat.eqb (length a) (length b)) eqn:El; [| reflexivity].
  destruct (Nat.ltb (length a) 2) eqn:E2; [reflexivity |].
  apply Nat.eqb_eq in El. apply Nat.ltb_ge in E2. destruct H; [contradiction | lia].
Qed.



(** Opposite deviations correlate perfectly negatively. *)
Lemma pearson_opposite (a b : list R) :
  (2 <= length a)%nat -> 0 < Val.ssq a ->
  Val.centered b = map Ropp (Val.centered a) -> pearson a b = Num (-1).
Proof.
  intros Hn Hpos Hc.
  assert (Hlen : length a = length b).
  { apply (f_equal (@length R)) in Hc. unfold Val.centered in Hc.
    rewrite !length_map in Hc. symmetry. exact Hc. }
  assert (Hb : Val.ssq b = Val.ssq a).
  { rewrite (ssq_centered b), Hc, dot_opp_opp. symmetry. apply ssq_centered. }
  assert (Hab : Val.cov a b = - Val.ssq a).
  { rewrite cov_centered, Hc, dot_opp_r. f_equal. symmetry. apply ssq_centered. }
  rewrite (pearson_val a b Hlen Hn), Hb, Hab.
  rewrite sqrt_square by lra.
  destruct (Req_dec_T (Val.ssq a) 0) as [E | E]; [lra |].
  f_equal. field. exact E.
Qed.

(** The standard deviation of two values is half their distance. *)
Lemma std_pair (x y : R) :
  x <= y -> std [x; y] = Num ((y - x) / 2).
Proof.
  intros Hxy. rewrite std_val. f_equal.
  unfold Val.std, Val.ssq, Val.mean, Val.sum. simpl.
  replace (((x - (x + (y + 0)) / (1 + 1)) * (x - (x + (y + 0)) / (1 + 1))
            + ((y - (x + (y + 0)) / (1 + 1)) * (y - (x + (y + 0)) / (1 + 1)) + 0))
           / (1 + 1))
    with (((y - x) / 2) * ((y - x) / 2)) by field.
  apply sqrt_square. lra.
Qed.



End StatsProperties.

(** ** The history buffer *)

Section HistoryProperties.

Import History.

Variable A : Type.
Variable capacity : nat.

(** One append: the entry goes to the end, and the front entry leaves when
    the buffer was full. *)
Lemma pushHistory_step (history : list A) (meas : A) :
  (length history <= capacity)%nat ->
  pushHistory capacity history meas
  = skipn (length (history ++ [meas]) - capacity) (history ++ [meas]).
Proof.
  intros Hlen. unfold pushHistory. cbv zeta.
  rewrite length_app. simpl length.
  destruct (Nat.ltb capacity (length history + 1)) eqn:E.
  - apply Nat.ltb_lt in E.
    replace (length history + 1 - capacity)%nat with 1%nat by lia.
    destruct (history ++ [meas]); reflexivity.
  - apply Nat.ltb_ge in E.
    replace (length history + 1 - capacity)%nat with 0%nat by lia.
    reflexivity.
Qed.

Lemma pushHistory_length (history : list A) (meas : A) :
  (length history <= capacity)%nat ->
  (length (pushHistory capacity history meas) <= capacity)%nat.
Proof.
  intros Hlen. rewrite pushHistory_step by exact Hlen.
  rewrite length_skipn, length_app. simpl. lia.
Qed.

(** Any number of appends: the buffer holds the last [capacity] entries of
    everything it has received. *)
Lemma appends_skipn (xs history : list A) :
  (length history <= capacity)%nat ->
  appends capacity history xs
  = skipn (length (history ++ xs) - capacity) (history ++ xs).
Proof.
  revert history. induction xs as [| x xs IH]; intros history Hlen.
  - simpl. rewrite app_nil_r.
    replace (length history - capacity)%nat with 0%nat by lia. reflexivity.
  - unfold appends in *. simpl fold_left.
    rewrite IH by now apply pushHistory_length.
    rewrite pushHistory_step by exact Hlen.
    set (k := (length (history ++ [x]) - capacity)%nat).
    assert (Hk : (k <= length (history ++ [x]))%nat) by (unfold k; lia).
    assert (Happ : skipn k (history ++ [x]) ++ xs = skipn k ((history ++ [x]) ++ xs)).
    { rewrite (skipn_app k (history ++ [x]) xs).
      replace (k - length (history ++ [x]))%nat with 0%nat by lia. reflexivity. }
    rewrite Happ, skipn_skipn, <- app_assoc. simpl app.
    f_equal. rewrite length_skipn.
    assert (Hl : length (history ++ x :: xs) = (length (history ++ [x]) + length xs)%nat).
    { rewrite !length_app. simpl. lia. }
    rewrite Hl. unfold k. rewrite length_app in *. simpl length in *. lia.
Qed.

Lemma appends_length (xs history : list A) :
  (length history <= capacity)%nat ->
  (length (appends capacity history xs) <= capacity)%nat.
Proof.
  intros Hlen. rewrite appends_skipn by exact Hlen.
  rewrite length_skipn. lia.
Qed.

(** C6: the buffer never grows beyond its capacity, whatever is appended;
    an append puts the entry at the end and drops the front entry when the
    capacity is exceeded; after [capacity + 1] appends to the empty buffer
    the first entry appended is gone (it is the only one dropped: the buffer
    is exactly the [capacity] later ones) and the last one appended is the
    last entry of the buffer. *)
Theorem history_buffer_bounded_fifo :
  (forall history xs : list A,
     (length history <= capacity)%nat ->
     (length (appends capacity history xs) <= capacity)%nat) /\
  (forall (history : list A) (meas : A),
     (length history <= capacity)%nat ->
     pushHistory capacity history meas
     = if Nat.ltb (length history) capacity then history ++ [meas]
       else tl (history ++ [meas])) /\
  (forall (oldest : A) (rest : list A),
     (1 <= capacity)%nat -> length rest = capacity ->
     appends capacity [] (oldest :: rest) = rest /\
     (~ In oldest rest -> ~ In oldest (appends capacity [] (oldest :: rest))) /\
     In (last rest oldest) (appends capacity [] (oldest :: rest)) /\
     last (appends capacity [] (oldest :: rest)) oldest = last (oldest :: rest) oldest).
Proof.
  split; [| split].
  - intros history xs Hlen. now apply appends_length.
  - intros history meas Hlen. unfold pushHistory. cbv zeta.
    rewrite length_app. simpl length.
    destruct (Nat.ltb capacity (length history + 1)) eqn:E1;
      destruct (Nat.ltb (length history) capacity) eqn:E2;
      try reflexivity.
    + apply Nat.ltb_lt in E1, E2. lia.
    + apply Nat.ltb_ge in E1, E2. lia.
  - intros oldest rest Hcap Hrest.
    assert (Heq : appends capacity [] (oldest :: rest) = rest).
    { rewrite appends_skipn by (simpl; lia). simpl app. simpl length.
      rewrite Hrest. replace (S capacity - capacity)%nat with 1%nat by lia.
      reflexivity. }
    rewrite Heq.
    destruct rest as [| y rest']; [simpl in Hrest; lia |].
    repeat split.
    + tauto.
    + assert (Hne : y :: rest' <> []) by discriminate.
      rewrite (app_removelast_last oldest Hne) at 2.
      apply in_or_app. right. left. reflexivity.
Qed.

End HistoryProperties.

(** A buffer of capacity 2 after three ticks. *)
Lemma history_buffer_witness :
  History.appends 2 [] [10%nat; 20%nat; 30%nat] = [20%nat; 30%nat] /\
  ~ In 10%nat (History.appends 2 [] [10%nat; 20%nat; 30%nat]) /\
  (length (History.appends 2 [] [10%nat; 20%nat; 30%nat]) <= 2)%nat.
Proof.
  destruct (history_buffer_bounded_fifo nat 2) as (Hlen & _ & Hfifo).
  destruct (Hfifo 10%nat [20%nat; 30%nat]) as (Heq & Habs & _);
    [lia | reflexivity |].
  split; [exact Heq |]. split.
  - apply Habs. simpl. intros [H | [H | H]]; try discriminate; exact H.
  - apply Hlen. simpl. lia.
Defined.

(** ** computeIndices: auxiliary facts *)

Section IndicesFacts.

Import Stats Indices.

Lemma clamp_Num (x : R) : clamp (Num x) (Num 0) (Num 100) = Num (Val.clampR x).
Proof. reflexivity. Qed.

Lemma clampR_bounds (x : R) : 0 <= Val.clampR x <= 100.
Proof.
  unfold Val.clampR, Rmax, Rmin.
  destruct (Rle_dec 100 x); destruct (Rle_dec 0 _); lra.
Qed.

Lemma clampR_id (x : R) : 0 <= x <= 100 -> Val.clampR x = x.
Proof.
  intros H. unfold Val.clampR, Rmax, Rmin.
  destruct (Rle_dec 100 x); destruct (Rle_dec 0 _); lra.
Qed.

Lemma clampR_low (x : R) : x <= 0 -> Val.clampR x = 0.
Proof.
  intros H. unfold Val.clampR, Rmax, Rmin.
  destruct (Rle_dec 100 x); destruct (Rle_dec 0 _); lra.
Qed.

Lemma clampR_high (x : R) : 100 <= x -> Val.clampR x = 100.
Proof.
  intros H. unfold Val.clampR, Rmax, Rmin.
  destruct (Rle_dec 100 x); destruct (Rle_dec 0 _); lra.
Qed.


(** The value of the pollutant penalty on a reading that is present. *)
Lemma pollutantPenalty_Some (x good bad : R) :
  good < bad ->
  pollutantPenalty (Some x) good bad
  = Num (if Rle_dec x good then 0
         else Val.clampR ((x - good) / (bad - good) * 100)).
Proof.
  intros Hgb. unfold pollutantPenalty, lte.
  destruct (Rle_dec x good); [reflexivity |].
  cbv zeta. cbn [sub]. rewrite div_Num by lra. reflexivity.
Qed.

Lemma pollutantPenalty_range (x : option R) (good bad : R) :
  good < bad ->
  exists p : R, pollutantPenalty x good bad = Num p /\ 0 <= p <= 100.
Proof.
  intros Hgb. destruct x as [x |].
  - rewrite pollutantPenalty_Some by exact Hgb. eexists. split; [reflexivity |].
    destruct (Rle_dec x good); [lra | apply clampR_bounds].
  - exists 0. split; [reflexivity | lra].
Qed.

Lemma th_ordered (p : Pollutant) : fst (th p) < snd (th p).
Proof. destruct p; simpl; lra. Qed.

(** A well-formed window is read without exception. *)
Lemma mapM_get_measure (k : Measures -> option R) (w : list Entry) :
  well_formed w -> mapM (get_measure k) w = Ok (map (Val.get k) w).
Proof.
  induction 1 as [| s w Hs Hw IH]; [reflexivity |].
  simpl. unfold get_measure at 1. unfold Val.get at 1.
  destruct (measures s) as [m |]; [| contradiction].
  cbn [bind]. rewrite IH. reflexivity.
Qed.

Lemma series_well_formed (k : Measures -> option R) (w : list Entry) :
  well_formed w -> series k w = Ok (Val.series k w).
Proof.
  intros Hw. unfold series. rewrite mapM_get_measure by exact Hw. reflexivity.
Qed.

Lemma slice_last_well_formed (n : nat) (w : list Entry) :
  well_formed w -> well_formed (slice_last n w).
Proof.
  unfold well_formed, slice_last. intros Hw.
  rewrite <- (firstn_skipn (length w - n) w) in Hw.
  apply Forall_app in Hw. tauto.
Qed.

Lemma std_or_zero (xs : list R) :
  (if Nat.leb 2 (length xs) then std xs else Num 0)
  = Num (if Nat.leb 2 (length xs) then Val.std xs else 0).
Proof.
  destruct (Nat.leb 2 (length xs)); [apply std_val | reflexivity].
Qed.

Lemma sigma_nonneg (k : Measures -> option R) (w : list Entry) : 0 <= Val.sigma k w.
Proof.
  unfold Val.sigma. cbv zeta.
  destruct (Nat.leb 2 _); [apply std_val_nonneg | lra].
Qed.

Lemma term_nonneg (w : list Entry) : 0 <= Val.term w.
Proof.
  unfold Val.term.
  pose proof (sigma_nonneg co2 w). pose proof (sigma_nonneg temp w).
  pose proof (sigma_nonneg rh w). lra.
Qed.

Lemma corr_or_zero (a b : list R) :
  exists c : R,
    (if Nat.leb 2 (length a) && Nat.eqb (length b) (length a)
     then pearson a b else Num 0) = Num c
    /\ -1 <= c <= 1.
Proof.
  destruct (Nat.leb 2 (length a) && Nat.eqb (length b) (length a)).
  - apply pearson_finite_bounded.
  - exists 0. split; [reflexivity | lra].
Qed.

Lemma deviation_Num (x : option R) (c wgt : R) :
  exists d : R,
    match x with
    | None => Num 0
    | Some t => (Math_abs (Num t - Num c) * Num wgt)%js
    end = Num d
    /\ (0 <= wgt -> 0 <= d).
Proof.
  destruct x as [t |].
  - exists (Rabs (t - c) * wgt). split; [reflexivity |].
    intros Hw. apply Rmult_le_pos; [apply Rabs_pos | exact Hw].
  - exists 0. split; [reflexivity | lra].
Qed.

End IndicesFacts.

(** ** computeIndices: the values computed on a well-formed window *)

Section IndicesValues.

Import Stats Indices.

(** When the entries that are read are well formed the [try] block
    completes, and every local is a real number: the penalties and the correlations are within their ranges
    and the other locals are the stated functions of them. *)
Lemma computeIndices_locals_val (state : Measures) (w : list Entry) :
  well_formed (slice_last 60 w) -> well_formed (slice_last (60 * 20) w) ->
  exists aq tp c1 c2 : R,
    0 <= aq <= 100 /\ 0 <= tp <= 100 /\ -1 <= c1 <= 1 /\ -1 <= c2 <= 1 /\
    computeIndices_locals state w = Ok
      {| l_AQ_penalty := Num aq;
         l_AQL := Num (Val.clampR (100 - aq));
         l_TCI_penalty_pct := Num tp;
         l_TCI := Num (Val.clampR (100 - tp));
         l_term := Num (Val.term w);
         l_SRI := Num (Val.clampR (100 - Val.term w * 100));
         l_Volatility_penalty := Num (Val.clampR (Val.term w * 100));
         l_corr_co2_no2 := Num c1;
         l_corr_co_nh3 := Num c2;
         l_GEI := Num (Val.clampR (100 - Rabs c1 * 40 - Rabs c2 * 40));
         l_GAQI :=
           Num (Val.clampR
                  (100 - (0.45 * aq + 0.25 * tp
                          + 0.2 * (100 - Val.clampR (100 - Rabs c1 * 40 - Rabs c2 * 40))
                          + 0.10 * Val.clampR (Val.term w * 100)))) |}.
Proof.
  intros Hw Hw'. unfold computeIndices_locals. cbv zeta.
  rewrite !series_well_formed by assumption.
  cbn [bind].
  destruct (pollutantPenalty_range (co2 state) _ _ (th_ordered CO2)) as (p1 & -> & Hp1).
  destruct (pollutantPenalty_range (no2 state) _ _ (th_ordered NO2)) as (p2 & -> & Hp2).
  destruct (pollutantPenalty_range (nh3 state) _ _ (th_ordered NH3)) as (p3 & -> & Hp3).
  destruct (pollutantPenalty_range (co state) _ _ (th_ordered CO)) as (p4 & -> & Hp4).
  destruct (deviation_Num (temp state) 22 2.5) as (d1 & -> & Hd1).
  destruct (deviation_Num (rh state) 50 0.5) as (d2 & -> & Hd2).
  destruct (deviation_Num (pres state) 1013 0.02) as (d3 & -> & Hd3).
  rewrite !std_or_zero.
  destruct (corr_or_zero (Val.series co2 (slice_last (60 * 20) w))
                         (Val.series no2 (slice_last (60 * 20) w))) as (c1 & -> & Hc1).
  destruct (corr_or_zero (Val.series co (slice_last (60 * 20) w))
                         (Val.series nh3 (slice_last (60 * 20) w))) as (c2 & -> & Hc2).
  cbn [add sub mul Math_abs weightsPoll].
  rewrite !div_Num by lra.
  repeat (progress (cbn [add sub mul Math_abs]; rewrite ?clamp_Num)).
  exists (p1 * 0.5 + p2 * 0.25 + p3 * 0.15 + p4 * 0.10),
         (Val.clampR ((d1 + d2 + d3) / 76 * 100)), c1, c2.
  split; [lra |]. split; [apply clampR_bounds |].
  split; [exact Hc1 |]. split; [exact Hc2 |].
  reflexivity.
Qed.

(** A window with a malformed entry among those read makes the [try] block
    throw. *)
Lemma well_formed_dec (w : list Entry) : {well_formed w} + {~ well_formed w}.
Proof.
  apply Forall_dec. intros s. destruct (measures s); [left; discriminate | right; tauto].
Qed.

Lemma series_malformed (k : Measures -> option R) (w : list Entry) :
  ~ well_formed w -> series k w = Throw TypeError.
Proof.
  unfold series. induction w as [| s w IH]; intros Hn.
  - exfalso. apply Hn. constructor.
  - simpl. unfold get_measure at 1. destruct (measures s) as [m |] eqn:Em.
    + cbn [bind].
      assert (Hw : ~ well_formed w).
      { intros Hw. apply Hn. constructor; [rewrite Em; discriminate | exact Hw]. }
      specialize (IH Hw). destruct (mapM (get_measure k) w); [discriminate IH |].
      cbn [bind] in *. exact IH.
    + reflexivity.
Qed.

Lemma computeIndices_locals_cases (state : Measures) (w : list Entry) :
  computeIndices_locals state w = Throw TypeError
  \/ (well_formed (slice_last 60 w) /\ well_formed (slice_last (60 * 20) w)).
Proof.
  destruct (well_formed_dec (slice_last 60 w)) as [H60 | H60].
  - destruct (well_formed_dec (slice_last (60 * 20) w)) as [H1200 | H1200].
    + right. split; assumption.
    + left. unfold computeIndices_locals. cbv zeta.
      rewrite !(series_well_formed _ _ H60). cbn [bind].
      rewrite (series_malformed co2 _ H1200). reflexivity.
  - left. unfold computeIndices_locals. cbv zeta.
    rewrite (series_malformed co2 _ H60). reflexivity.
Qed.

End IndicesValues.

(** ** Properties of computeIndices *)

Section IndicesProperties.

Import Stats Indices.

Lemma computeIndices_of_locals (state : Measures) (w : list Entry) (l : Locals) :
  computeIndices_locals state w = Ok l -> computeIndices state w = report l.
Proof.
  intros H. unfold computeIndices, computeIndices_try. rewrite H. reflexivity.
Qed.

Lemma computeIndices_of_throw (state : Measures) (w : list Entry) (e : exn) :
  computeIndices_locals state w = Throw e -> computeIndices state w = zeroResult.
Proof.
  intros H. unfold computeIndices, computeIndices_try. rewrite H. reflexivity.
Qed.

(** The ratio [(x - g) / (b - g)] against 0 and 1. *)
Lemma ratio_bounds (x g b : R) :
  g < b ->
  (g <= x -> 0 <= (x - g) / (b - g)) /\
  (x <= b -> (x - g) / (b - g) <= 1) /\
  (b <= x -> 1 <= (x - g) / (b - g)).
Proof.
  intros Hgb.
  assert (Hi : 0 < / (b - g)) by (apply Rinv_0_lt_compat; lra).
  assert (H1 : (b - g) * / (b - g) = 1) by (apply Rinv_r; lra).
  unfold Rdiv. repeat split; intros H.
  - apply Rmult_le_pos; lra.
  - rewrite <- H1. apply Rmult_le_compat_r; lra.
  - rewrite <- H1. apply Rmult_le_compat_r; lra.
Qed.

Lemma pollutantPenalty_cases (x g b : R) :
  g < b ->
  (x <= g -> pollutantPenalty (Some x) g b = Num 0) /\
  (g < x < b -> pollutantPenalty (Some x) g b = Num (100 * (x - g) / (b - g))) /\
  (b <= x -> pollutantPenalty (Some x) g b = Num 100).
Proof.
  intros Hgb. rewrite (pollutantPenalty_Some x g b Hgb).
  destruct (ratio_bounds x g b Hgb) as (R0 & R1 & R2).
  repeat split; intros H; destruct (Rle_dec x g) as [Hle | Hgt]; try lra; f_equal.
  - rewrite clampR_id.
    + unfold Rdiv. ring.
    + specialize (R0 ltac:(lra)). specialize (R1 ltac:(lra)). lra.
  - apply clampR_high. specialize (R2 H). lra.
Qed.

(** C3: with the thresholds [th] (co2 600/2000, no2 40/200, nh3 0.01/0.1,
    co 0.5/10), the penalty of a pollutant is 0 when the reading is missing
    or at most the good threshold [g], [100 (x - g) / (b - g)] strictly
    between the thresholds, and 100 from the bad threshold [b] on. *)
Theorem pollutantPenalty_piecewise (p : Pollutant) (x : R) :
  let g := fst (th p) in
  let b := snd (th p) in
  (th CO2 = (600, 2000) /\ th NO2 = (40, 200) /\ th NH3 = (0.01, 0.1)
   /\ th CO = (0.5, 10)) /\
  pollutantPenalty None g b = Num 0 /\
  (x <= g -> pollutantPenalty (Some x) g b = Num 0) /\
  (g < x < b -> pollutantPenalty (Some x) g b = Num (100 * (x - g) / (b - g))) /\
  (b <= x -> pollutantPenalty (Some x) g b = Num 100).
Proof.
  intros g b. split; [repeat split |]. split; [reflexivity |].
  apply pollutantPenalty_cases. apply th_ordered.
Qed.

(** CO2 at 500, 1300 and 2500 ppm. *)
Lemma pollutantPenalty_piecewise_witness :
  pollutantPenalty (Some 500) 600 2000 = Num 0
  /\ pollutantPenalty (Some 1300) 600 2000 = Num 50
  /\ pollutantPenalty (Some 2500) 600 2000 = Num 100.
Proof.
  split; [| split].
  - destruct (pollutantPenalty_piecewise CO2 500) as (_ & _ & H & _).
    apply H. simpl. lra.
  - destruct (pollutantPenalty_piecewise CO2 1300) as (_ & _ & _ & H & _).
    simpl fst in H. simpl snd in H. rewrite H by lra. f_equal. lra.
  - destruct (pollutantPenalty_piecewise CO2 2500) as (_ & _ & _ & _ & H).
    apply H. simpl. lra.
Defined.



(** C7: on every window of the history, before rounding,
    [SRI = 100 - Volatility_penalty], where [Volatility_penalty] is
    [clamp(term * 100, 0, 100)] and [term] adds the population standard
    deviations of co2, temp and rh over the last 60 entries, divided by 500,
    3 and 10 and weighted by 0.4, 0.3 and 0.3. *)
Theorem SRI_complements_volatility (state : Measures) (w : list Entry) :
  well_formed w ->
  exists l : Locals,
    computeIndices_locals state w = Ok l /\
    l_term l
    = Num (Val.sigma co2 w / 500 * 0.4 + Val.sigma temp w / 3 * 0.3
           + Val.sigma rh w / 10 * 0.3) /\
    l_Volatility_penalty l = clamp (l_term l * Num 100)%js (Num 0) (Num 100) /\
    l_SRI l = (Num 100 - l_Volatility_penalty l)%js.
Proof.
  intros Hw.
  destruct (computeIndices_locals_val state w) as (aq & tp & c1 & c2 & _ & _ & _ & _ & Hl);
    try (apply slice_last_well_formed; exact Hw).
  eexists. split; [exact Hl |].
  cbn [l_term l_Volatility_penalty l_SRI].
  split; [reflexivity |]. split; [reflexivity |].
  cbn [sub]. f_equal.
  pose proof (term_nonneg w) as Ht.
  destruct (Rle_dec (Val.term w * 100) 100) as [Hle | Hgt].
  - rewrite (clampR_id (Val.term w * 100)) by lra. apply clampR_id. lra.
  - rewrite (clampR_high (Val.term w * 100)) by lra.
    rewrite clampR_low by lra. lra.
Qed.

Lemma SRI_complements_volatility_witness :
  exists l : Locals,
    computeIndices_locals Sample.state Sample.window = Ok l /\
    l_term l
    = Num (Val.sigma co2 Sample.window / 500 * 0.4
           + Val.sigma temp Sample.window / 3 * 0.3
           + Val.sigma rh Sample.window / 10 * 0.3) /\
    l_Volatility_penalty l = clamp (l_term l * Num 100)%js (Num 0) (Num 100) /\
    l_SRI l = (Num 100 - l_Volatility_penalty l)%js.
Proof.
  apply (SRI_complements_volatility Sample.state Sample.window).
  repeat constructor; discriminate.
Defined.

End IndicesProperties.

(** ** The two reference scenarios, on the empty window *)

Section Scenarios.

Import Stats Indices.

Lemma pollutantPenalty_good (x g b : R) :
  g < b -> x <= g -> pollutantPenalty (Some x) g b = Num 0.
Proof. intros Hgb. apply pollutantPenalty_cases. exact Hgb. Qed.

Lemma pollutantPenalty_bad (x g b : R) :
  g < b -> b <= x -> pollutantPenalty (Some x) g b = Num 100.
Proof. intros Hgb. apply pollutantPenalty_cases. exact Hgb. Qed.

Lemma Math_abs_set_point (c : R) : Math_abs (Num c - Num c) = Num 0.
Proof.
  cbn [sub Math_abs]. f_equal. replace (c - c) with 0 by ring. apply Rabs_R0.
Qed.

Lemma Math_abs_zero : Math_abs (Num 0) = Num 0.
Proof. cbn [Math_abs]. f_equal. apply Rabs_R0. Qed.

(** Evaluates the locals of a scenario down to clamped and rounded reals. *)
Ltac eval_locals :=
  unfold computeIndices, computeIndices_try, computeIndices_locals; cbv zeta;
  cbn [slice_last length Nat.sub skipn series mapM bind filter_present
       Nat.leb Nat.eqb andb co2 no2 nh3 co temp rh pres th fst snd weightsPoll];
  rewrite ?Math_abs_set_point, ?Math_abs_zero;
  rewrite ?pollutantPenalty_good by lra;
  rewrite ?pollutantPenalty_bad by lra;
  repeat (progress (cbn [add sub mul]; rewrite ?clamp_Num;
                    rewrite ?div_Num by lra));
  unfold report;
  cbn [l_AQ_penalty l_AQL l_TCI_penalty_pct l_TCI l_SRI l_Volatility_penalty
       l_corr_co2_no2 l_corr_co_nh3 l_GEI l_GAQI toFixed];
  repeat match goal with
         | |- context [Val.clampR ?e] => rewrite (clampR_id e) by lra
         | |- context [Val.clampR ?e] => rewrite (clampR_low e) by lra
         end.

(** [toFixed_val d e = c] for [c = n / 10^d]. *)
Ltac fixed n :=
  etransitivity;
  [ apply (toFixed_val_exact _ n); [lia | simpl pow; lra] | lra ].

(** Every reading at its good threshold or set-point: no penalty at all. *)
Example scenario_neutral :
  computeIndices Sample.neutral []
  = {| AQL := Num 100; AQ_penalty := Num 0; TCI := Num 100;
       TCI_penalty_pct := Num 0; SRI := Num 100; Volatility_penalty := Num 0;
       GEI := Num 100; corr_co2_no2 := Num 0; corr_co_nh3 := Num 0;
       GAQI := Num 100 |}.
Proof.
  unfold Sample.neutral. eval_locals.
  f_equal; f_equal; first [fixed 10000%Z | fixed 0%Z].
Qed.

(** Every pollutant at its bad threshold: [AQ_penalty] is 100, [AQL] is 0
    and [GAQI] is 100 - 0.45 * 100. *)
Example scenario_polluted :
  computeIndices Sample.polluted []
  = {| AQL := Num 0; AQ_penalty := Num 100; TCI := Num 100;
       TCI_penalty_pct := Num 0; SRI := Num 100; Volatility_penalty := Num 0;
       GEI := Num 100; corr_co2_no2 := Num 0; corr_co_nh3 := Num 0;
       GAQI := Num 55 |}.
Proof.
  unfold Sample.polluted. eval_locals.
  f_equal; f_equal; first [fixed 10000%Z | fixed 0%Z | fixed 5500%Z].
Qed.

(** The sample state on the sample window: co2 went from 1200 to 1300 and
    temp from 24 to 25 while no2 went from 140 to 40; rh and nh3 are missing. *)
Example scenario_sample_window :
  exists l : Locals,
    computeIndices_locals Sample.state Sample.window = Ok l /\
    l_AQ_penalty l = Num 35 /\ l_AQL l = Num 65 /\
    l_term l = Num 0.09 /\ l_Volatility_penalty l = Num 9 /\ l_SRI l = Num 91 /\
    l_corr_co2_no2 l = Num (-1) /\ l_corr_co_nh3 l = Num 0 /\
    l_GEI l = Num 60.
Proof.
  unfold computeIndices_locals. cbv zeta.
  unfold Sample.window, Sample.state, Sample.earlier.
  cbn [slice_last length Nat.sub skipn series mapM get_measure measures bind
       filter_present Nat.leb Nat.eqb Nat.mul Nat.add andb
       co2 no2 nh3 co temp rh pres th fst snd weightsPoll].
  rewrite !std_pair by lra.
  assert (Hp : pearson [1200; 1300] [140; 40] = Num (-1)).
  { apply pearson_opposite.
    - simpl. lia.
    - unfold Val.ssq, Val.mean, Val.sum. simpl. lra.
    - unfold Val.centered, Val.mean, Val.sum. simpl. repeat (f_equal; try lra). }
  rewrite Hp.
  assert (P1 : pollutantPenalty (Some 1300) 600 2000 = Num 50).
  { destruct (pollutantPenalty_cases 1300 600 2000) as (_ & H & _); [lra |].
    rewrite H by lra. f_equal. lra. }
  rewrite P1, pollutantPenalty_good, pollutantPenalty_bad by lra.
  cbn [pollutantPenalty].
  rewrite ?Math_abs_set_point, ?Math_abs_zero.
  repeat (progress (cbn [add sub mul Math_abs]; rewrite ?clamp_Num;
                    rewrite ?div_Num by lra)).
  rewrite (Rabs_left (-1)) by lra.
  eexists. split; [reflexivity |].
  cbn [l_AQ_penalty l_AQL l_term l_Volatility_penalty l_SRI l_corr_co2_no2
       l_corr_co_nh3 l_GEI].
  repeat split; f_equal; try (rewrite clampR_id by lra); lra.
Qed.

End Scenarios.

(** ** What the script returns in binary64

    Runs of the script on finite inputs, evaluated in [Binary64].  They show
    where rounding, overflow and underflow take [pearson], and with it
    [computeIndices], away from the exact value: the guard [den === 0] of
    [pearson] lets a denominator that is infinite, [NaN] or a rounding
    residue through, and nothing downstream ([clamp], [toFixed]) stops a
    [NaN]. *)

Section Binary64Runs.

Import Floats Binary64.
Local Open Scope float_scope.
#[local] Set Warnings "-inexact-float".

(** C1: the script does return [NaN] fields.  On the window [large], whose
    [co2] and [no2] are the finite numbers 1e200 and -1e200, the squared
    deviations overflow to [Infinity], [pearson] passes its guard and
    divides [Infinity] by [Infinity], and [computeIndices] returns [NaN] as
    [corr_co2_no2], [GEI] and [GAQI]; nothing is thrown, so the [catch]
    block does not replace the result. *)
Theorem computeIndices_returns_NaN :
  computeIndices_locals initial large <> Indices.Throw Indices.TypeError
  /\ computeIndices initial large
     = {| AQL := 98.33; AQ_penalty := 1.67; TCI := 98.36; TCI_penalty_pct := 1.64;
          SRI := 0; Volatility_penalty := 100; GEI := nan;
          corr_co2_no2 := nan; corr_co_nh3 := 0; GAQI := nan |}
  /\ is_nan (corr_co2_no2 (computeIndices initial large)) = true
  /\ is_nan (GEI (computeIndices initial large)) = true
  /\ is_nan (GAQI (computeIndices initial large)) = true.
Proof.
  split; [vm_compute; discriminate |].
  vm_compute. repeat split; reflexivity.
Qed.

(** C2: on the same window, for the state without any field, [AQL], [TCI]
    and [SRI] are within [0, 100] but [GEI] and [GAQI] are not: they are
    [NaN], which [clamp] and [toFixed] hand on. *)
Theorem primary_scores_leave_0_100 :
  within 0 100 (AQL (computeIndices missing large)) = true
  /\ within 0 100 (TCI (computeIndices missing large)) = true
  /\ within 0 100 (SRI (computeIndices missing large)) = true
  /\ within 0 100 (GEI (computeIndices missing large)) = false
  /\ within 0 100 (GAQI (computeIndices missing large)) = false.
Proof. vm_compute. repeat split; reflexivity. Qed.

(** C5: [mean] and [std] of the empty array are 0, and [pearson] returns 0
    when the lengths differ or the length is below 2 (an empty array is one
    of these cases).  But a series without variance is not always answered
    by 0.  The mean of three times 0.1 is 0.10000000000000002, so [std] is
    not 0 and the denominator of [pearson] is a rounding residue instead of
    0: two constant series correlate with -1 or 1.  Against the series
    1e200, -1e200 the constant series 5, 5, whose [std] is 0, gives [NaN]:
    the denominator is the square root of [0 * Infinity].  In
    [computeIndices] the window [flat], in which nothing varies, gets a
    [GEI] of 20 instead of 100. *)
Theorem zero_variance_escapes_the_guard :
  (mean [] = 0 /\ std [] = 0 /\
   forall a b : list float,
     length a <> length b \/ (length a < 2)%nat -> pearson a b = 0)
  /\ mean [0.1; 0.1; 0.1] = 0.10000000000000002
  /\ std [0.1; 0.1; 0.1] = 1.3877787807814457e-17
  /\ pearson [0.1; 0.1; 0.1] [0.1; 0.1; 0.1] = 1
  /\ pearson [0.7; 0.7; 0.7] [0.011; 0.011; 0.011] = -1
  /\ std [5; 5] = 0
  /\ is_nan (pearson [5; 5] [1e200; -1e200]) = true
  /\ GEI (computeIndices initial flat) = 20.
Proof.
  split.
  - split; [reflexivity |]. split; [reflexivity |].
    intros a b H. unfold pearson.
    destruct (Nat.eqb (length a) (length b)) eqn:El; [| reflexivity].
    destruct (Nat.ltb (length a) 2) eqn:E2; [reflexivity |].
    apply Nat.eqb_eq in El. apply Nat.ltb_ge in E2.
    destruct H as [H | H]; [contradiction | lia].
  - vm_compute. repeat split; reflexivity.
Qed.

(** Arrays of different lengths, and an array of one value. *)
Lemma zero_variance_escapes_the_guard_witness :
  pearson [1] [1; 2] = 0 /\ pearson [7] [7] = 0.
Proof.
  destruct zero_variance_escapes_the_guard as [(_ & _ & H) _].
  split; apply H; [left; simpl; lia | right; simpl; lia].
Defined.

(** C9: [pearson] leaves [-1, 1].  By rounding it returns
    1.0000000000000002 on small integers; when the squared deviations
    underflow it returns 1.012...; when they overflow it returns [NaN]. *)
Theorem pearson_leaves_unit_interval :
  pearson [0; 0; 1] [1; 1; 6] = 1.0000000000000002
  /\ within (-1) 1 (pearson [0; 0; 1] [1; 1; 6]) = false
  /\ pearson [0; 3e-81] [0; 3e-81] = 1.012255603772219
  /\ within (-1) 1 (pearson [0; 3e-81] [0; 3e-81]) = false
  /\ is_nan (pearson [1e200; -1e200] [1e200; -1e200]) = true
  /\ within (-1) 1 (pearson [1e200; -1e200] [1e200; -1e200]) = false.
Proof. vm_compute. repeat split; reflexivity. Qed.

(** C10: [GEI] falls below 20.  On the window [integers] both correlations
    are 1.0000000000000002 and [GEI] is 19.999999999999986 before rounding
    (20 after it); on the window [tiny] both are 1.012 after rounding and
    the [GEI] returned is 19.02; on the window [large] it is [NaN]. *)
Theorem GEI_falls_below_20 :
  (exists l : Locals,
     computeIndices_locals initial integers = Indices.Ok l
     /\ l_corr_co2_no2 l = 1.0000000000000002
     /\ l_corr_co_nh3 l = 1.0000000000000002
     /\ l_GEI l = 19.999999999999986 /\ (l_GEI l <? 20) = true)
  /\ corr_co2_no2 (computeIndices initial tiny) = 1.012
  /\ corr_co_nh3 (computeIndices initial tiny) = 1.012
  /\ GEI (computeIndices initial tiny) = 19.02
  /\ (GEI (computeIndices initial tiny) <? 20) = true
  /\ (20 <=? GEI (computeIndices initial large)) = false.
Proof.
  split.
  - eexists. split; [vm_compute; reflexivity |].
    vm_compute. repeat split; reflexivity.
  - vm_compute. repeat split; reflexivity.
Qed.

End Binary64Runs.

(** * Further properties of the code *)

(** ** Statistics: symmetry *)

Section StatsAlgebra.

Import Stats.

Lemma dot_sym (ma mb : R) (a b : list R) :
  Val.dot ma mb a b = Val.dot mb ma b a.
Proof.
  revert b. induction a as [| x a IH]; intros [| y b]; simpl; try reflexivity.
  rewrite IH. ring.
Qed.

Lemma pearson_swap (a b : list R) : pearson a b = pearson b a.
Proof.
  destruct (Nat.eq_dec (length a) (length b)) as [El | El].
  2:{ rewrite (pearson_short a b) by now left.
      rewrite (pearson_short b a) by (left; congruence). reflexivity. }
  destruct (le_lt_dec 2 (length a)) as [E2 | E2].
  2:{ rewrite (pearson_short a b) by now right.
      rewrite (pearson_short b a) by (right; lia). reflexivity. }
  rewrite (pearson_val a b El E2).
  rewrite (pearson_val b a (eq_sym El)) by lia.
  unfold Val.cov. rewrite (dot_sym (Val.mean b) (Val.mean a) b a).
  rewrite (Rmult_comm (Val.ssq b) (Val.ssq a)). reflexivity.
Qed.

(** X1: [pearson] is symmetric in its two arguments, whatever the arrays:
    the upper triangle computed by [/corr] determines the whole matrix. *)
Theorem pearson_symmetric (a b : list R) : pearson a b = pearson b a.
Proof. apply pearson_swap. Qed.

End StatsAlgebra.

(** ** computeIndices: what the window and the state contribute *)

Section IndicesMore.

Import Stats Indices.

Lemma slice_last_app (A : Type) (k : nat) (old w : list A) :
  (k <= length w)%nat -> slice_last k (old ++ w) = slice_last k w.
Proof.
  intros Hk. unfold slice_last. rewrite length_app, skipn_app.
  replace (length old + length w - k - length old)%nat with (length w - k)%nat by lia.
  rewrite skipn_all2 by lia. reflexivity.
Qed.

(** X6: only the last 1200 entries of the window are read: entries in front
    of them, even objects without measures, change nothing in the result. *)
Theorem computeIndices_reads_last_1200 (state : Measures) (old w : list Entry) :
  (60 * 20 <= length w)%nat ->
  computeIndices state (old ++ w) = computeIndices state w.
Proof.
  intros Hlen. unfold computeIndices, computeIndices_try, computeIndices_locals.
  cbv zeta.
  rewrite (slice_last_app _ 60 old w) by lia.
  rewrite (slice_last_app _ (60 * 20) old w) by exact Hlen.
  reflexivity.
Qed.

(** 1200 good entries behind a broken one. *)
Lemma computeIndices_reads_last_1200_witness :
  computeIndices Sample.state
    ([Sample.broken] ++ repeat {| timestamp := 0; measures := Some Sample.state |} 1200)
  = computeIndices Sample.state
      (repeat {| timestamp := 0; measures := Some Sample.state |} 1200).
Proof.
  apply computeIndices_reads_last_1200. rewrite repeat_length. apply Nat.le_refl.
Defined.

Lemma pollutantPenalty_score (x : option R) (good bad : R) :
  good < bad -> pollutantPenalty x good bad = Num (Score.penalty x good bad).
Proof.
  intros Hgb. destruct x as [x |]; [| reflexivity].
  now apply pollutantPenalty_Some.
Qed.

Lemma penalty_range (x : option R) (good bad : R) :
  0 <= Score.penalty x good bad <= 100.
Proof.
  destruct x as [x |]; simpl; [| lra].
  destruct (Rle_dec x good); [lra | apply clampR_bounds].
Qed.

Lemma AQ_penalty_range (state : Measures) : 0 <= Score.AQ_penalty state <= 100.
Proof.
  unfold Score.AQ_penalty.
  pose proof (penalty_range (co2 state) 600 2000).
  pose proof (penalty_range (no2 state) 40 200).
  pose proof (penalty_range (nh3 state) 0.01 0.1).
  pose proof (penalty_range (co state) 0.5 10). lra.
Qed.

Lemma deviation_score (x : option R) (c wgt : R) :
  match x with
  | None => Num 0
  | Some t => (Math_abs (Num t - Num c) * Num wgt)%js
  end = Num (Score.deviation x c wgt).
Proof. destruct x; reflexivity. Qed.

(** The locals of [computeIndices], with the two penalties of the state
    written out; the two correlations depend on the window alone. *)
Lemma computeIndices_locals_score (w : list Entry) :
  well_formed (slice_last 60 w) -> well_formed (slice_last (60 * 20) w) ->
  exists c1 c2 : R,
    -1 <= c1 <= 1 /\ -1 <= c2 <= 1 /\
    forall state : Measures,
    computeIndices_locals state w = Ok
      {| l_AQ_penalty := Num (Score.AQ_penalty state);
         l_AQL := Num (Val.clampR (100 - Score.AQ_penalty state));
         l_TCI_penalty_pct := Num (Score.TCI_penalty_pct state);
         l_TCI := Num (Val.clampR (100 - Score.TCI_penalty_pct state));
         l_term := Num (Val.term w);
         l_SRI := Num (Val.clampR (100 - Val.term w * 100));
         l_Volatility_penalty := Num (Val.clampR (Val.term w * 100));
         l_corr_co2_no2 := Num c1;
         l_corr_co_nh3 := Num c2;
         l_GEI := Num (Val.clampR (100 - Rabs c1 * 40 - Rabs c2 * 40));
         l_GAQI :=
           Num (Val.clampR
                  (100 - (0.45 * Score.AQ_penalty state
                          + 0.25 * Score.TCI_penalty_pct state
                          + 0.2 * (100 - Val.clampR (100 - Rabs c1 * 40 - Rabs c2 * 40))
                          + 0.10 * Val.clampR (Val.term w * 100)))) |}.
Proof.
  intros Hw Hw'.
  destruct (corr_or_zero (Val.series co2 (slice_last (60 * 20) w))
                         (Val.series no2 (slice_last (60 * 20) w))) as (c1 & E1 & Hc1).
  destruct (corr_or_zero (Val.series co (slice_last (60 * 20) w))
                         (Val.series nh3 (slice_last (60 * 20) w))) as (c2 & E2 & Hc2).
  exists c1, c2. split; [exact Hc1 |]. split; [exact Hc2 |]. intros state.
  unfold computeIndices_locals. cbv zeta.
  rewrite !series_well_formed by assumption.
  cbn [bind].
  rewrite !pollutantPenalty_score by apply th_ordered.
  rewrite !deviation_score.
  rewrite !std_or_zero. rewrite E1, E2.
  cbn [add sub mul Math_abs weightsPoll th fst snd].
  rewrite !div_Num by lra.
  repeat (progress (cbn [add sub mul Math_abs]; rewrite ?clamp_Num)).
  reflexivity.
Qed.

Lemma Rabs_unit (c : R) : -1 <= c <= 1 -> 0 <= Rabs c <= 1.
Proof. intros H. split; [apply Rabs_pos | apply Rabs_le; lra]. Qed.

(** X7: on a window whose entries carry their measures, neither [AQL] nor
    [TCI] is cut by its clamp: [AQ_penalty] and [TCI_penalty_pct] are within
    [0, 100], and before rounding [AQL] is [100 - AQ_penalty] and [TCI] is
    [100 - TCI_penalty_pct]. *)
Theorem AQL_TCI_never_clamped (state : Measures) (w : list Entry) :
  well_formed w ->
  exists (l : Locals) (aq tp : R),
    computeIndices_locals state w = Ok l /\
    0 <= aq <= 100 /\ 0 <= tp <= 100 /\
    l_AQ_penalty l = Num aq /\ l_AQL l = Num (100 - aq) /\
    l_TCI_penalty_pct l = Num tp /\ l_TCI l = Num (100 - tp).
Proof.
  intros Hw.
  destruct (computeIndices_locals_score w) as (c1 & c2 & _ & _ & Hl);
    try (apply slice_last_well_formed; exact Hw).
  specialize (Hl state).
  pose proof (AQ_penalty_range state) as Haq.
  pose proof (clampR_bounds (Score.raw_tci state / 76 * 100)) as Htp.
  fold (Score.TCI_penalty_pct state) in Htp.
  eexists. exists (Score.AQ_penalty state), (Score.TCI_penalty_pct state).
  split; [exact Hl |].
  cbn [l_AQ_penalty l_AQL l_TCI_penalty_pct l_TCI].
  rewrite (clampR_id (100 - Score.AQ_penalty state)) by lra.
  rewrite (clampR_id (100 - Score.TCI_penalty_pct state)) by lra.
  split; [exact Haq |]. split; [exact Htp |].
  repeat split; reflexivity.
Qed.

(** Every pollutant at its bad threshold: [AQL] is 0 without the clamp. *)
Lemma AQL_TCI_never_clamped_witness :
  exists (l : Locals) (aq : R),
    computeIndices_locals Sample.polluted Sample.window = Ok l /\
    0 <= aq <= 100 /\ l_AQL l = Num (100 - aq).
Proof.
  destruct (AQL_TCI_never_clamped Sample.polluted Sample.window)
    as (l & aq & tp & Hl & Haq & _ & _ & HA & _).
  - repeat constructor; discriminate.
  - exists l, aq. split; [exact Hl |]. split; [exact Haq | exact HA].
Defined.

Lemma penalty_or_else (x : option R) (good bad : R) :
  Score.penalty (Score.or_else x good) good bad = Score.penalty x good bad.
Proof.
  destruct x as [x |]; [reflexivity |]. simpl.
  destruct (Rle_dec good good); [reflexivity | lra].
Qed.

Lemma deviation_or_else (x : option R) (c wgt : R) :
  Score.deviation (Score.or_else x c) c wgt = Score.deviation x c wgt.
Proof.
  destruct x as [x |]; [reflexivity |]. simpl.
  replace (c - c) with 0 by ring. rewrite Rabs_R0. ring.
Qed.

(** X8: a missing reading scores exactly like a perfect one: the result is
    the same as for the state in which every missing pollutant is at its
    good threshold and every missing comfort reading at its set-point
    (600, 40, 0.01, 0.5, 22, 50, 1013), on every window. *)
Theorem missing_reading_scores_as_neutral (state : Measures) (w : list Entry) :
  computeIndices (Score.fill_neutral state) w = computeIndices state w.
Proof.
  unfold computeIndices, computeIndices_try, computeIndices_locals. cbv zeta.
  rewrite !pollutantPenalty_score by apply th_ordered.
  rewrite !deviation_score.
  cbn [Score.fill_neutral co2 no2 nh3 co temp rh pres th fst snd].
  rewrite !penalty_or_else, !deviation_or_else.
  reflexivity.
Qed.

Lemma length_filter_present (l : list (option R)) :
  (length (filter_present l) <= length l)%nat.
Proof.
  induction l as [| [x |] l IH]; simpl; lia.
Qed.

Lemma length_series (k : Measures -> option R) (w : list Entry) :
  (length (Val.series k w) <= length w)%nat.
Proof.
  unfold Val.series. pose proof (length_filter_present (map (Val.get k) w)) as H.
  rewrite length_map in H. exact H.
Qed.

Lemma length_slice_last (A : Type) (k : nat) (w : list A) :
  (length (slice_last k w) <= length w)%nat.
Proof. unfold slice_last. rewrite length_skipn. lia. Qed.

Lemma short_series (k : Measures -> option R) (n : nat) (w : list Entry) :
  (length w <= 1)%nat -> Nat.leb 2 (length (Val.series k (slice_last n w))) = false.
Proof.
  intros H. apply Nat.leb_gt.
  pose proof (length_series k (slice_last n w)).
  pose proof (length_slice_last _ n w). lia.
Qed.

(** X9: with at most one entry in the window (the default [lastWindow = []]
    included) there is no volatility and no correlation: [SRI] and [GEI] are
    100, [Volatility_penalty] and both correlations are 0, and [GAQI] is
    [100 - 0.45 AQ_penalty - 0.25 TCI_penalty_pct] rounded, for every state. *)
Theorem short_window_is_neutral (state : Measures) (w : list Entry) :
  well_formed w -> (length w <= 1)%nat ->
  SRI (computeIndices state w) = Num 100 /\
  Volatility_penalty (computeIndices state w) = Num 0 /\
  GEI (computeIndices state w) = Num 100 /\
  corr_co2_no2 (computeIndices state w) = Num 0 /\
  corr_co_nh3 (computeIndices state w) = Num 0 /\
  GAQI (computeIndices state w)
  = Num (toFixed_val 2 (100 - 0.45 * Score.AQ_penalty state
                        - 0.25 * Score.TCI_penalty_pct state)).
Proof.
  intros Hw Hlen.
  unfold computeIndices, computeIndices_try, computeIndices_locals. cbv zeta.
  rewrite !series_well_formed by (apply slice_last_well_formed; exact Hw).
  cbn [bind].
  rewrite !short_series by exact Hlen. cbn [andb].
  rewrite !pollutantPenalty_score by apply th_ordered.
  rewrite !deviation_score.
  cbn [add sub mul Math_abs weightsPoll th fst snd].
  rewrite !div_Num by lra.
  repeat (progress (cbn [add sub mul Math_abs]; rewrite ?clamp_Num)).
  unfold report.
  cbn [SRI Volatility_penalty GEI corr_co2_no2 corr_co_nh3 GAQI
       l_SRI l_Volatility_penalty l_GEI l_corr_co2_no2 l_corr_co_nh3 l_GAQI toFixed].
  fold (Score.AQ_penalty state). fold (Score.raw_tci state).
  fold (Score.TCI_penalty_pct state).
  rewrite Rabs_R0.
  pose proof (AQ_penalty_range state) as Haq.
  pose proof (clampR_bounds (Score.raw_tci state / 76 * 100)) as Htp.
  fold (Score.TCI_penalty_pct state) in Htp.
  rewrite (clampR_id (100 - (0 / 500 * 0.4 + 0 / 3 * 0.3 + 0 / 10 * 0.3) * 100)) by lra.
  rewrite (clampR_low ((0 / 500 * 0.4 + 0 / 3 * 0.3 + 0 / 10 * 0.3) * 100)) by lra.
  rewrite (clampR_id (100 - 0 * 40 - 0 * 40)) by lra.
  rewrite clampR_id by lra.
  repeat split; f_equal.
  - rewrite (toFixed_val_exact 2 10000); [lra | lia | simpl pow; lra].
  - rewrite (toFixed_val_exact 2 0); [lra | lia | simpl pow; lra].
  - rewrite (toFixed_val_exact 2 10000); [lra | lia | simpl pow; lra].
  - rewrite (toFixed_val_exact 3 0); [lra | lia | simpl pow; lra].
  - rewrite (toFixed_val_exact 3 0); [lra | lia | simpl pow; lra].
  - f_equal. lra.
Qed.

Lemma short_window_is_neutral_witness :
  SRI (computeIndices Sample.state []) = Num 100 /\
  GEI (computeIndices Sample.state []) = Num 100.
Proof.
  destruct (short_window_is_neutral Sample.state []) as (H1 & _ & H3 & _).
  - constructor.
  - simpl. lia.
  - split; [exact H1 | exact H3].
Defined.

Lemma clampR_mono (x y : R) : x <= y -> Val.clampR x <= Val.clampR y.
Proof.
  intros H. unfold Val.clampR, Rmax, Rmin.
  destruct (Rle_dec 100 x); destruct (Rle_dec 100 y);
    repeat match goal with |- context [Rle_dec 0 ?e] => destruct (Rle_dec 0 e) end;
    lra.
Qed.

Lemma round_half_up_mono (x y : R) :
  x <= y -> (round_half_up x <= round_half_up y)%Z.
Proof.
  intros H. destruct (round_half_up_spec x) as [Hx _].
  destruct (round_half_up_spec y) as [_ Hy].
  assert (Hlt : (round_half_up x < round_half_up y + 1)%Z).
  { apply lt_IZR. rewrite plus_IZR. lra. }
  lia.
Qed.

(** Rounding to 2 decimals keeps the order of non-negative numbers. *)
Lemma toFixed2_mono (x y : R) :
  0 <= x -> x <= y -> toFixed_val 2 x <= toFixed_val 2 y.
Proof.
  intros Hx Hxy. unfold toFixed_val.
  destruct (Rlt_dec x 0); [lra |]. destruct (Rlt_dec y 0); [lra |].
  assert (Hm : (round_half_up (x * 10 ^ 2) <= round_half_up (y * 10 ^ 2))%Z).
  { apply round_half_up_mono. simpl pow. lra. }
  apply IZR_le in Hm. simpl pow in *. lra.
Qed.

Lemma penalty_mono (a b : option R) (good bad : R) :
  good < bad -> Score.reading_le a b ->
  Score.penalty a good bad <= Score.penalty b good bad.
Proof.
  intros Hgb Hab. destruct a as [x |]; [| apply penalty_range].
  destruct b as [y |]; [| contradiction]. simpl in Hab. simpl.
  destruct (Rle_dec x good); destruct (Rle_dec y good); try lra.
  - apply clampR_bounds.
  - apply clampR_mono.
    assert (Hi : 0 < / (bad - good)) by (apply Rinv_0_lt_compat; lra).
    unfold Rdiv. apply Rmult_le_compat_r; [lra |].
    apply Rmult_le_compat_r; lra.
Qed.

Lemma AQ_penalty_mono (s s' : Measures) :
  Score.more_polluted s s' -> Score.AQ_penalty s <= Score.AQ_penalty s'.
Proof.
  intros (H1 & H2 & H3 & H4). unfold Score.AQ_penalty.
  pose proof (penalty_mono _ _ 600 2000 ltac:(lra) H1).
  pose proof (penalty_mono _ _ 40 200 ltac:(lra) H2).
  pose proof (penalty_mono _ _ 0.01 0.1 ltac:(lra) H3).
  pose proof (penalty_mono _ _ 0.5 10 ltac:(lra) H4). lra.
Qed.

(** X10: dirtier air never gets a better air-quality level.  When the
    pollutant readings of [s'] are at least those of [s] (a missing reading
    counting as the lowest), then on every window, whatever the comfort
    readings, the [AQL] returned for [s'] is at most the one returned for
    [s]. *)
Theorem dirtier_air_never_scores_better (s s' : Measures) (w : list Entry) :
  Score.more_polluted s s' ->
  exists a a' : R,
    AQL (computeIndices s w) = Num a /\ AQL (computeIndices s' w) = Num a' /\
    a' <= a.
Proof.
  intros Hm.
  destruct (computeIndices_locals_cases s w) as [Ht | [H60 H1200]].
  - assert (Ht' : computeIndices_locals s' w = Throw TypeError).
    { destruct (computeIndices_locals_cases s' w) as [Ht' | [H60 H1200]]; [exact Ht' |].
      destruct (computeIndices_locals_score w H60 H1200) as (c1 & c2 & _ & _ & Hl).
      rewrite (Hl s) in Ht. discriminate. }
    rewrite (computeIndices_of_throw _ _ _ Ht), (computeIndices_of_throw _ _ _ Ht').
    exists 0, 0. cbn. repeat split; try reflexivity; lra.
  - destruct (computeIndices_locals_score w H60 H1200) as (c1 & c2 & Hc1 & Hc2 & Hl).
    rewrite (computeIndices_of_locals _ _ _ (Hl s)).
    rewrite (computeIndices_of_locals _ _ _ (Hl s')).
    unfold report. cbn [AQL l_AQL toFixed].
    do 2 eexists. do 2 (split; [reflexivity |]).
    pose proof (AQ_penalty_mono s s' Hm) as Haq.
    apply toFixed2_mono; [apply clampR_bounds | apply clampR_mono; lra].
Qed.

(** The sample state against the state with every pollutant at its bad
    threshold and other comfort readings. *)
Lemma dirtier_air_witness :
  exists a a' : R,
    AQL (computeIndices Sample.state Sample.window) = Num a /\
    AQL (computeIndices Sample.polluted Sample.window) = Num a' /\ a' <= a.
Proof.
  apply (dirtier_air_never_scores_better Sample.state Sample.polluted Sample.window).
  unfold Score.more_polluted, Score.reading_le, Sample.state, Sample.polluted. simpl.
  repeat split; lra.
Defined.


End IndicesMore.

(** ** server.js: the simulator *)

Section Simulator.

Import Indices.

Lemma toFixed3_error (x : R) : 0 <= x -> Rabs (toFixed_val 3 x - x) <= / 2000.
Proof.
  intros Hx. unfold toFixed_val. destruct (Rlt_dec x 0) as [Hn | _]; [lra |].
  destruct (round_half_up_spec (x * 10 ^ 3)) as [H1 H2].
  simpl pow in *. rewrite !Rmult_1_r in *.
  apply Rabs_le. lra.
Qed.

(** The value of [vary] before the rounding stays between [min] and [max]
    and within [delta] of [value]. *)
Lemma vary_raw (u value delta min max : R) :
  0 <= u <= 1 -> 0 <= delta -> delta * 0.2 <= max - min ->
  min <= value <= max ->
  exists newVal : R,
    Server.vary u value delta min max = toFixed_val 3 newVal /\
    min <= newVal <= max /\ - delta <= newVal - value <= delta.
Proof.
  intros Hu Hd Hw Hv. unfold Server.vary. cbv zeta.
  assert (Hc : - delta <= (u * 2 - 1) * delta <= delta).
  { assert (H1 : (u * 2 - 1 + 1) * delta >= 0) by (apply Rle_ge, Rmult_le_pos; lra).
    assert (H2 : (1 - (u * 2 - 1)) * delta >= 0) by (apply Rle_ge, Rmult_le_pos; lra).
    lra. }
  set (change := (u * 2 - 1) * delta) in *.
  destruct (Rlt_dec (value + change) min) as [Hlow | Hlow].
  - destruct (Rlt_dec max (min + (min - (value + change)) * 0.2)) as [Hhigh | Hhigh];
      [lra |].
    eexists. split; [reflexivity |]. lra.
  - destruct (Rlt_dec max (value + change)) as [Hhigh | Hhigh].
    + eexists. split; [reflexivity |]. lra.
    + eexists. split; [reflexivity |]. lra.
Qed.

Lemma vary_between (u value delta min max : R) (lo hi : Z) :
  0 <= u < 1 -> 0 <= delta -> delta * 0.2 <= max - min ->
  min <= value <= max ->
  (0 <= lo)%Z -> min = IZR lo / 10 ^ 3 -> max = IZR hi / 10 ^ 3 ->
  min <= Server.vary u value delta min max <= max.
Proof.
  intros Hu Hd Hw Hv Hlo Hmin Hmax.
  destruct (vary_raw u value delta min max) as (nv & -> & Hnv & Hmove);
    try assumption; [lra |].
  rewrite Hmin, Hmax. apply toFixed_val_between; [exact Hlo |].
  rewrite <- Hmin, <- Hmax. exact Hnv.
Qed.

(** X12: [vary] keeps a reading between [min] and [max] and moves it by at
    most [delta] plus half a thousandth, whatever the random draw, as soon
    as [0.2 delta] fits between the bounds and the bounds have at most 3
    decimals. *)
Theorem vary_stays_in_range (u value delta min max : R) (lo hi : Z) :
  0 <= u < 1 -> 0 <= delta -> delta * 0.2 <= max - min ->
  min <= value <= max ->
  (0 <= lo)%Z -> min = IZR lo / 10 ^ 3 -> max = IZR hi / 10 ^ 3 ->
  min <= Server.vary u value delta min max <= max /\
  Rabs (Server.vary u value delta min max - value) <= delta + / 2000.
Proof.
  intros Hu Hd Hw Hv Hlo Hmin Hmax.
  split; [now apply (vary_between u value delta min max lo hi) |].
  destruct (vary_raw u value delta min max) as (nv & -> & Hnv & Hmove);
    try assumption; [lra |].
  - assert (H0 : 0 <= nv).
    { apply Rle_trans with min; [| lra]. rewrite Hmin.
      apply Rmult_le_pos; [now apply IZR_le | left; apply Rinv_0_lt_compat, pow10_pos]. }
    pose proof (Rabs_le_between _ _ (toFixed3_error nv H0)) as He.
    apply Rabs_le. lra.
Qed.

(** CO2 at its lower bound with the lowest draw is reflected to 454. *)
Lemma vary_stays_in_range_witness :
  450 <= Server.vary 0 450 20 450 1500 <= 1500 /\
  Rabs (Server.vary 0 450 20 450 1500 - 450) <= 20 + / 2000.
Proof.
  apply (vary_stays_in_range 0 450 20 450 1500 450000 1500000);
    try lra; try lia; simpl pow; lra.
Defined.

Lemma tick_state_in_range (u : Server.Draws) (s : Server.State) :
  Server.valid_draws u -> Server.in_range s -> Server.in_range (Server.tick_state u s).
Proof.
  intros (U1 & U2 & U3 & U4 & U5 & U6 & U7) (H1 & H2 & H3 & H4 & H5 & H6 & H7).
  unfold Server.random_draw in *.
  unfold Server.in_range, Server.tick_state.
  cbn [Server.co2 Server.no2 Server.nh3 Server.co Server.temp Server.rh Server.pres].
  repeat split.
  - apply (vary_between _ _ 20 450 1500 450000 1500000); try lra; try lia; simpl pow; lra.
  - apply (vary_between _ _ 20 450 1500 450000 1500000); try lra; try lia; simpl pow; lra.
  - apply (vary_between _ _ 2 20 120 20000 120000); try lra; try lia; simpl pow; lra.
  - apply (vary_between _ _ 2 20 120 20000 120000); try lra; try lia; simpl pow; lra.
  - apply (vary_between _ _ 0.002 0.01 0.08 10 80); try lra; try lia; simpl pow; lra.
  - apply (vary_between _ _ 0.002 0.01 0.08 10 80); try lra; try lia; simpl pow; lra.
  - apply (vary_between _ _ 0.05 0.2 3 200 3000); try lra; try lia; simpl pow; lra.
  - apply (vary_between _ _ 0.05 0.2 3 200 3000); try lra; try lia; simpl pow; lra.
  - apply (vary_between _ _ 0.12 19 26 19000 26000); try lra; try lia; simpl pow; lra.
  - apply (vary_between _ _ 0.12 19 26 19000 26000); try lra; try lia; simpl pow; lra.
  - apply (vary_between _ _ 0.3 35 65 35000 65000); try lra; try lia; simpl pow; lra.
  - apply (vary_between _ _ 0.3 35 65 35000 65000); try lra; try lia; simpl pow; lra.
  - apply (vary_between _ _ 0.05 1008 1018 1008000 1018000); try lra; try lia; simpl pow; lra.
  - apply (vary_between _ _ 0.05 1008 1018 1008000 1018000); try lra; try lia; simpl pow; lra.
Qed.

Lemma initial_in_range : Server.in_range Server.initial.
Proof. unfold Server.in_range, Server.initial. simpl. lra. Qed.

Lemma pushHistory_Forall (A : Type) (P : A -> Prop) (c : nat) (h : list A) (x : A) :
  Forall P h -> P x -> Forall P (History.pushHistory c h x).
Proof.
  intros Hh Hx. unfold History.pushHistory. cbv zeta.
  assert (Hall : Forall P (h ++ [x])) by (apply Forall_app; split; [exact Hh | now constructor]).
  destruct (Nat.ltb c (length (h ++ [x]))); [| exact Hall].
  destruct (h ++ [x]) as [| y t]; [constructor |]. simpl. now inversion Hall.
Qed.

Lemma tick_sound (now : Z) (u : Server.Draws) (sys : Server.System) :
  Server.valid_draws u -> Server.sound sys -> Server.sound (Server.tick now u sys).
Proof.
  intros Hu (Hs & Hh & Hl). unfold Server.sound, Server.tick. cbv zeta.
  cbn [Server.state Server.history].
  pose proof (tick_state_in_range u _ Hu Hs) as Hs'.
  split; [exact Hs' |]. split.
  - apply pushHistory_Forall; [exact Hh |].
    eexists. split; [reflexivity | exact Hs'].
  - now apply pushHistory_length.
Qed.

Lemma run_sound (events : list (Z * Server.Draws)) (sys : Server.System) :
  Forall (fun e => Server.valid_draws (snd e)) events ->
  Server.sound sys -> Server.sound (Server.run events sys).
Proof.
  revert sys. induction events as [| e events IH]; intros sys Hev Hsys; [exact Hsys |].
  inversion Hev as [| ? ? He Hev']; subst.
  unfold Server.run in *. simpl. apply IH; [exact Hev' |].
  now apply tick_sound.
Qed.

Lemma start_sound : Server.sound Server.start.
Proof.
  unfold Server.sound, Server.start. cbn. split; [apply initial_in_range |].
  split; [constructor | lia].
Qed.

(** X13: whatever the clock and the random draws of the ticks, the
    simulated state stays within the bounds passed to [vary] (co2 in
    [450, 1500], no2 in [20, 120], nh3 in [0.01, 0.08], co in [0.2, 3], temp
    in [19, 26], rh in [35, 65], pres in [1008, 1018]), every entry of the
    history is the copy of such a state, and the history never holds more
    than [HISTORY_SECONDS] entries. *)
Theorem simulation_stays_in_range (events : list (Z * Server.Draws)) :
  Forall (fun e => Server.valid_draws (snd e)) events ->
  Server.in_range (Server.state (Server.run events Server.start))
  /\ Forall Server.simulated (Server.history (Server.run events Server.start))
  /\ (length (Server.history (Server.run events Server.start))
      <= History.HISTORY_SECONDS)%nat.
Proof.
  intros Hev. apply (run_sound events Server.start Hev start_sound).
Qed.

Lemma steady_valid : Server.valid_draws Server.steady.
Proof. unfold Server.valid_draws, Server.random_draw, Server.steady. simpl. lra. Qed.

Lemma lowest_valid : Server.valid_draws Server.lowest.
Proof. unfold Server.valid_draws, Server.random_draw, Server.lowest. simpl. lra. Qed.

(** Two ticks, one second apart. *)
Lemma simulation_stays_in_range_witness :
  Server.in_range
    (Server.state (Server.run [(1000%Z, Server.lowest); (2000%Z, Server.steady)]
                              Server.start)).
Proof.
  apply (simulation_stays_in_range [(1000%Z, Server.lowest); (2000%Z, Server.steady)]).
  repeat constructor; simpl; lra.
Defined.

End Simulator.

(** ** server.js: the history of the ticks and its time windows *)

Section Windows.

Import Indices.

Lemma run_history (events : list (Z * Server.Draws)) (sys : Server.System) :
  Server.history (Server.run events sys)
  = History.appends History.HISTORY_SECONDS (Server.history sys)
      (Server.entries events (Server.state sys)).
Proof.
  revert sys. induction events as [| [now u] events IH]; intros sys; [reflexivity |].
  unfold Server.run in *. cbn [fold_left fst snd]. rewrite IH.
  reflexivity.
Qed.

Lemma entries_timestamps (events : list (Z * Server.Draws)) (s : Server.State) :
  map timestamp (Server.entries events s) = map fst events.
Proof.
  revert s. induction events as [| [now u] events IH]; intros s; [reflexivity |].
  cbn [Server.entries map timestamp fst]. rewrite IH. reflexivity.
Qed.

Lemma StronglySorted_skipn (n : nat) (l : list Z) :
  StronglySorted Z.le l -> StronglySorted Z.le (skipn n l).
Proof.
  revert l. induction n as [| n IH]; intros l Hs; [exact Hs |].
  destruct l as [| x l]; [exact Hs |]. simpl. apply IH. now inversion Hs.
Qed.

Lemma map_skipn (A B : Type) (f : A -> B) (n : nat) (l : list A) :
  map f (skipn n l) = skipn n (map f l).
Proof.
  revert l. induction n as [| n IH]; intros [| x l]; simpl; try reflexivity.
  apply IH.
Qed.

(** X14: the buffer holds exactly the entries pushed by the last
    [HISTORY_SECONDS] ticks, in the order of the ticks; when the clock never
    goes back, its timestamps are in non-decreasing order. *)
Theorem history_holds_last_ticks (events : list (Z * Server.Draws)) :
  Server.history (Server.run events Server.start)
  = slice_last History.HISTORY_SECONDS (Server.entries events Server.initial)
  /\ (StronglySorted Z.le (map fst events) ->
      Server.chronological (Server.history (Server.run events Server.start))).
Proof.
  assert (Heq : Server.history (Server.run events Server.start)
                = slice_last History.HISTORY_SECONDS
                    (Server.entries events Server.initial)).
  { rewrite run_history. cbn [Server.start Server.history Server.state].
    rewrite appends_skipn by (simpl; lia). reflexivity. }
  split; [exact Heq |].
  intros Hs. unfold Server.chronological. rewrite Heq. unfold slice_last.
  rewrite map_skipn, entries_timestamps. now apply StronglySorted_skipn.
Qed.

Lemma history_holds_last_ticks_witness :
  Server.chronological
    (Server.history (Server.run [(1000%Z, Server.lowest); (2000%Z, Server.steady)]
                                Server.start)).
Proof.
  apply (history_holds_last_ticks [(1000%Z, Server.lowest); (2000%Z, Server.steady)]).
  simpl. repeat constructor. lia.
Defined.

Lemma windowSeconds_filter (now sec : Z) (h : list Entry) :
  Server.windowSeconds now sec h
  = filter (fun e => Z.leb (now - sec * 1000) (timestamp e)) h.
Proof.
  unfold Server.windowSeconds. cbv zeta.
  destruct h as [| e h]; reflexivity.
Qed.

(** A filter that accepts every entry of a list keeps the list. *)
Lemma filter_keeps_all (keep : Entry -> bool) (h : list Entry) :
  Forall (fun e => keep e = true) h -> filter keep h = h.
Proof.
  intros Hall. induction Hall as [| e h He _ IH]; [reflexivity |].
  cbn [filter]. rewrite He, IH. reflexivity.
Qed.

(** On a chronological list the entries from a cutoff on are a suffix. *)
Lemma filter_cutoff_suffix (c : Z) (h : list Entry) :
  Server.chronological h ->
  exists n : nat,
    filter (fun e => Z.leb c (timestamp e)) h = slice_last n h.
Proof.
  unfold Server.chronological. induction h as [| e h IH]; intros Hs.
  - exists 0%nat. reflexivity.
  - cbn [map] in Hs. inversion Hs as [| ? ? Hs' Hall]; subst.
    cbn [filter]. destruct (Z.leb c (timestamp e)) eqn:E.
    + exists (length (e :: h)). unfold slice_last. rewrite Nat.sub_diag.
      cbn [skipn]. f_equal. apply filter_keeps_all.
      apply Forall_forall. intros x Hx. apply Z.leb_le. apply Z.leb_le in E.
      rewrite Forall_forall in Hall.
      specialize (Hall (timestamp x) (in_map timestamp h x Hx)). lia.
    + destruct (IH Hs') as (n & Hn). rewrite Hn.
      exists (Nat.min n (length h)). unfold slice_last. cbn [length].
      replace (S (length h) - Nat.min n (length h))%nat
        with (S (length h - Nat.min n (length h))) by lia.
      cbn [skipn]. f_equal. lia.
Qed.

Lemma chronological_filter (f : Entry -> bool) (h : list Entry) :
  Server.chronological h -> Server.chronological (filter f h).
Proof.
  unfold Server.chronological. induction h as [| e h IH]; intros Hs; [exact Hs |].
  cbn [map] in Hs. inversion Hs as [| ? ? Hs' Hall]; subst.
  cbn [filter]. destruct (f e); [| now apply IH].
  cbn [map]. constructor; [now apply IH |].
  rewrite Forall_forall in *. intros t Ht. apply Hall.
  apply in_map_iff in Ht. destruct Ht as (x & <- & Hx).
  apply filter_In in Hx. apply in_map. tauto.
Qed.

(** X15: [windowSeconds] returns exactly the entries whose timestamp is at
    least [now - sec * 1000], in their order; on a history in chronological
    order they are its last entries, and the window of a shorter lookback is
    made of the last entries of the window of a longer one. *)
Theorem windowSeconds_is_recent_suffix (now sec : Z) (h : list Entry) :
  (forall e : Entry,
     In e (Server.windowSeconds now sec h)
     <-> In e h /\ (now - sec * 1000 <= timestamp e)%Z) /\
  (Server.chronological h ->
   (exists n : nat, Server.windowSeconds now sec h = slice_last n h) /\
   forall sec' : Z, (sec <= sec')%Z ->
     exists n : nat,
       Server.windowSeconds now sec h
       = slice_last n (Server.windowSeconds now sec' h)).
Proof.
  split.
  - intros e. rewrite windowSeconds_filter, filter_In, Z.leb_le. reflexivity.
  - intros Hs. split.
    + rewrite windowSeconds_filter. now apply filter_cutoff_suffix.
    + intros sec' Hsec.
      assert (Heq : Server.windowSeconds now sec h
                    = filter (fun e => Z.leb (now - sec * 1000) (timestamp e))
                        (Server.windowSeconds now sec' h)).
      { rewrite !windowSeconds_filter.
        induction h as [| e h IH]; [reflexivity |].
        assert (Hs' : Server.chronological h).
        { unfold Server.chronological in *. cbn [map] in Hs. now inversion Hs. }
        cbn [filter].
        destruct (Z.leb (now - sec * 1000) (timestamp e)) eqn:E1;
          destruct (Z.leb (now - sec' * 1000) (timestamp e)) eqn:E2;
          cbn [filter]; rewrite ?E1; rewrite <- ?(IH Hs'); try reflexivity.
        apply Z.leb_le in E1. apply Z.leb_gt in E2. lia. }
      rewrite Heq. apply filter_cutoff_suffix.
      rewrite windowSeconds_filter. now apply chronological_filter.
Qed.

(** The window of 60 seconds at time 61000 of the two sample ticks. *)
Lemma windowSeconds_witness :
  exists n : nat,
    Server.windowSeconds 61000 60
      (Server.history (Server.run [(0%Z, Server.lowest); (2000%Z, Server.steady)]
                                  Server.start))
    = slice_last n
        (Server.history (Server.run [(0%Z, Server.lowest); (2000%Z, Server.steady)]
                                    Server.start)).
Proof.
  apply (windowSeconds_is_recent_suffix 61000 60).
  unfold Server.chronological. simpl. repeat constructor. lia.
Defined.

End Windows.

(** ** server.js: what /data reports for the simulated readings *)

Section DataEndpoint.

Import Indices.

Lemma simulated_well_formed (h : list Entry) :
  Forall Server.simulated h -> well_formed h.
Proof.
  unfold well_formed. apply Forall_impl.
  intros e (s & Hs & _). rewrite Hs. discriminate.
Qed.

Lemma well_formed_filter (f : Entry -> bool) (h : list Entry) :
  well_formed h -> well_formed (filter f h).
Proof.
  unfold well_formed. rewrite !Forall_forall. intros H e He.
  apply H. apply filter_In in He. tauto.
Qed.

Lemma penalty_at_most (x top good bad cap : R) :
  good < bad -> x <= top ->
  Score.penalty (Some top) good bad <= cap ->
  Score.penalty (Some x) good bad <= cap.
Proof.
  intros Hgb Hx Hcap.
  apply Rle_trans with (Score.penalty (Some top) good bad); [| exact Hcap].
  now apply penalty_mono.
Qed.

Lemma penalty_value (x good bad : R) :
  good < x <= bad -> good < bad ->
  Score.penalty (Some x) good bad = (x - good) / (bad - good) * 100.
Proof.
  intros Hx Hgb. simpl. destruct (Rle_dec x good); [lra |].
  apply clampR_id. destruct (ratio_bounds x good bad Hgb) as (R0 & R1 & _).
  specialize (R0 ltac:(lra)). specialize (R1 ltac:(lra)). lra.
Qed.

(** The penalties of a state within the range of the simulator. *)
Lemma simulated_penalties (s : Server.State) :
  Server.in_range s ->
  Score.AQ_penalty (Server.measures_of s) <= 58.95
  /\ Score.TCI_penalty_pct (Server.measures_of s) <= 23.16.
Proof.
  intros (H1 & H2 & H3 & H4 & H5 & H6 & H7). split.
  - unfold Score.AQ_penalty. cbn [Server.measures_of co2 no2 nh3 co].
    assert (P1 : Score.penalty (Some (Server.co2 s)) 600 2000 <= 64.29).
    { apply (penalty_at_most _ 1500); [lra | lra |].
      rewrite penalty_value by lra. lra. }
    assert (P2 : Score.penalty (Some (Server.no2 s)) 40 200 <= 50).
    { apply (penalty_at_most _ 120); [lra | lra |].
      rewrite penalty_value by lra. lra. }
    assert (P3 : Score.penalty (Some (Server.nh3 s)) 0.01 0.1 <= 77.78).
    { apply (penalty_at_most _ 0.08); [lra | lra |].
      rewrite penalty_value by lra. lra. }
    assert (P4 : Score.penalty (Some (Server.co s)) 0.5 10 <= 26.32).
    { apply (penalty_at_most _ 3); [lra | lra |].
      rewrite penalty_value by lra. lra. }
    lra.
  - unfold Score.TCI_penalty_pct, Score.raw_tci, Score.deviation.
    cbn [Server.measures_of temp rh pres].
    assert (D1 : Rabs (Server.temp s - 22) <= 4) by (apply Rabs_le; lra).
    assert (D2 : Rabs (Server.rh s - 50) <= 15) by (apply Rabs_le; lra).
    assert (D3 : Rabs (Server.pres s - 1013) <= 5) by (apply Rabs_le; lra).
    pose proof (Rabs_pos (Server.temp s - 22)).
    pose proof (Rabs_pos (Server.rh s - 50)).
    pose proof (Rabs_pos (Server.pres s - 1013)).
    rewrite clampR_id by lra. lra.
Qed.

(** X16: whatever the clock and the draws of the ticks so far, the indices
    that [/data] computes at any time come from the [try] block, never from
    the fallback, and for the simulated readings [AQL] is at least 41, [TCI]
    at least 76, [GEI] at least 20 and [GAQI] at least 41. *)
Theorem data_endpoint_scores (events : list (Z * Server.Draws)) (now : Z) :
  Forall (fun e => Server.valid_draws (snd e)) events ->
  let sys := Server.run events Server.start in
  exists (l : Locals) (a t e g : R),
    computeIndices_locals (Server.measures_of (Server.state sys))
      (Server.windowSeconds now 60 (Server.history sys)) = Ok l /\
    Server.data_indices now sys = report l /\
    AQL (Server.data_indices now sys) = Num a /\ 41 <= a <= 100 /\
    TCI (Server.data_indices now sys) = Num t /\ 76 <= t <= 100 /\
    GEI (Server.data_indices now sys) = Num e /\ 20 <= e <= 100 /\
    GAQI (Server.data_indices now sys) = Num g /\ 41 <= g <= 100.
Proof.
  intros Hev sys.
  destruct (run_sound events Server.start Hev start_sound) as (Hs & Hh & _).
  fold sys in Hs, Hh.
  assert (Hw : well_formed (Server.windowSeconds now 60 (Server.history sys))).
  { rewrite windowSeconds_filter. apply well_formed_filter.
    now apply simulated_well_formed. }
  set (w := Server.windowSeconds now 60 (Server.history sys)) in *.
  set (st := Server.measures_of (Server.state sys)).
  destruct (computeIndices_locals_score w) as (c1 & c2 & Hc1 & Hc2 & Hl);
    try (apply slice_last_well_formed; exact Hw).
  specialize (Hl st).
  destruct (simulated_penalties _ Hs) as [Haq Htp]. fold st in Haq, Htp.
  pose proof (AQ_penalty_range st) as Haq0.
  pose proof (clampR_bounds (Score.raw_tci st / 76 * 100)) as Htp0.
  fold (Score.TCI_penalty_pct st) in Htp0.
  pose proof (Rabs_unit c1 Hc1) as Ha1. pose proof (Rabs_unit c2 Hc2) as Ha2.
  pose proof (clampR_bounds (Val.term w * 100)) as HV.
  unfold Server.data_indices. cbv zeta. fold w. fold st.
  rewrite (computeIndices_of_locals _ _ _ Hl).
  eexists. do 4 eexists. split; [exact Hl |]. split; [reflexivity |].
  unfold report. cbn [AQL TCI GEI GAQI l_AQL l_TCI l_GEI l_GAQI toFixed].
  rewrite (clampR_id (100 - Score.AQ_penalty st)) by lra.
  rewrite (clampR_id (100 - Score.TCI_penalty_pct st)) by lra.
  rewrite (clampR_id (100 - Rabs c1 * 40 - Rabs c2 * 40)) by lra.
  set (V := Val.clampR (Val.term w * 100)) in *.
  rewrite clampR_id by lra.
  split; [reflexivity |]. split.
  { pose proof (toFixed_val_between 2 4100 10000 (100 - Score.AQ_penalty st)) as Hb.
    simpl pow in Hb. rewrite !Rmult_1_r in Hb.
    destruct Hb as [Hb1 Hb2]; [lia | lra |]. lra. }
  split; [reflexivity |]. split.
  { pose proof (toFixed_val_between 2 7600 10000 (100 - Score.TCI_penalty_pct st)) as Hb.
    simpl pow in Hb. rewrite !Rmult_1_r in Hb.
    destruct Hb as [Hb1 Hb2]; [lia | lra |]. lra. }
  split; [reflexivity |]. split.
  { pose proof (toFixed_val_between 2 2000 10000 (100 - Rabs c1 * 40 - Rabs c2 * 40)) as Hb.
    simpl pow in Hb. rewrite !Rmult_1_r in Hb.
    destruct Hb as [Hb1 Hb2]; [lia | lra |]. lra. }
  split; [reflexivity |]. fold V.
  pose proof (toFixed_val_between 2 4100 10000
                (100 - (0.45 * Score.AQ_penalty st + 0.25 * Score.TCI_penalty_pct st
                        + 0.2 * (100 - (100 - Rabs c1 * 40 - Rabs c2 * 40))
                        + 0.10 * V))) as Hb.
  simpl pow in Hb. rewrite !Rmult_1_r in Hb.
  destruct Hb as [Hb1 Hb2]; [lia | lra |]. lra.
Qed.

Lemma data_endpoint_scores_witness :
  exists g : R,
    GAQI (Server.data_indices 2500
            (Server.run [(1000%Z, Server.lowest); (2000%Z, Server.steady)]
                        Server.start)) = Num g
    /\ 41 <= g <= 100.
Proof.
  destruct (data_endpoint_scores [(1000%Z, Server.lowest); (2000%Z, Server.steady)] 2500)
    as (l & a & t & e & g & _ & _ & _ & _ & _ & _ & _ & _ & Hg & Hr).
  - repeat constructor; simpl; lra.
  - exists g. split; [exact Hg | exact Hr].
Defined.

End DataEndpoint.

(** ** server.js: the sampling loop of /scatterbar *)

Section Scatterbar.

Import Indices.

Variables xVar yVar : Server.Field.

Lemma every_nil (A : Type) (st n : nat) : Server.every st (@nil A) n = [].
Proof. destruct n; reflexivity. Qed.

(** With a positive step enough fuel is as good as more. *)
Lemma every_fuel (A : Type) (st : nat) (n m : nat) (l : list A) :
  (1 <= st)%nat -> (length l <= n)%nat -> (length l <= m)%nat ->
  Server.every st l n = Server.every st l m.
Proof.
  intros Hst. revert m l. induction n as [| n IH]; intros m l Hn Hm.
  - destruct l; [now rewrite !every_nil | simpl in Hn; lia].
  - destruct l as [| s t]; [now rewrite !every_nil |].
    destruct m as [| m]; [simpl in Hm; lia |].
    cbn [Server.every]. f_equal.
    assert (Hlen : (length (skipn st (s :: t)) <= length t)%nat).
    { rewrite length_skipn. cbn [length]. lia. }
    cbn [length] in Hn, Hm. apply IH; lia.
Qed.

Lemma every_length (A : Type) (st : nat) (n : nat) (l : list A) :
  (1 <= st)%nat -> (length l <= n)%nat ->
  length (Server.every st l n) = ((length l + st - 1) / st)%nat.
Proof.
  intros Hst. revert l. induction n as [| n IH]; intros l Hn.
  - destruct l; [| simpl in Hn; lia]. simpl.
    symmetry. apply Nat.div_small. lia.
  - destruct l as [| s t].
    + simpl. symmetry. apply Nat.div_small. lia.
    + cbn [Server.every length]. rewrite IH.
      2:{ rewrite length_skipn. cbn [length] in *. lia. }
      rewrite length_skipn. cbn [length].
      destruct (le_lt_dec st (S (length t))) as [Hle | Hlt].
      * replace (S (length t) + st - 1)%nat
          with ((S (length t) - st + st - 1) + 1 * st)%nat by lia.
        rewrite Nat.div_add by lia. lia.
      * replace (S (length t) - st)%nat with 0%nat by lia.
        replace ((0 + st - 1) / st)%nat with 0%nat
          by (symmetry; apply Nat.div_small; lia).
        apply (Nat.div_unique _ _ 1 (length t)); lia.
Qed.

Lemma at_index_entry (l : list (Z * Measures)) (k : nat) :
  Server.at_index (map Server.entry_of l) (Z.of_nat k)
  = option_map Server.entry_of (nth_error l k).
Proof.
  unfold Server.at_index.
  replace (Z.of_nat k <? 0)%Z with false by (symmetry; apply Z.ltb_ge; lia).
  rewrite Nat2Z.id. apply nth_error_map.
Qed.

(** The loop from the index [k], with a positive step, ends within
    [length l - k + 1] iterations and pushes the sampled entries that are
    left. *)
Lemma scatter_loop_ends (st : nat) (l : list (Z * Measures)) :
  (1 <= st)%nat ->
  forall (fuel k : nat) (points : list Server.Point),
    (length l - k < fuel)%nat ->
    Server.scatter_loop fuel xVar yVar (Z.of_nat st) (map Server.entry_of l)
      (Z.of_nat k) points
    = Some (Ok (points
                ++ map (fun tm => Server.point xVar yVar (fst tm) (snd tm))
                       (Server.every st (skipn k l) (length l - k)))).
Proof.
  intros Hst. induction fuel as [| fuel IH]; intros k points Hfuel; [lia |].
  cbn [Server.scatter_loop]. rewrite length_map.
  destruct (Z.ltb (Z.of_nat k) (Z.of_nat (length l))) eqn:E.
  - apply Z.ltb_lt in E. assert (Hk : (k < length l)%nat) by lia.
    rewrite at_index_entry.
    destruct (nth_error l k) as [tm |] eqn:En.
    2:{ apply nth_error_None in En. lia. }
    cbn [option_map Server.entry_of measures timestamp].
    replace (Z.of_nat k + Z.of_nat st)%Z with (Z.of_nat (k + st)) by lia.
    rewrite IH by lia. f_equal. f_equal. rewrite <- app_assoc. f_equal.
    pose proof (hd_error_skipn k l) as Hh. rewrite En in Hh.
    destruct (skipn k l) as [| tm' rest] eqn:Es; [discriminate |].
    injection Hh as ->.
    replace (length l - k)%nat with (S (length l - k - 1)) by lia.
    cbn [Server.every map app]. f_equal. f_equal.
    rewrite <- Es, skipn_skipn. rewrite (Nat.add_comm st k).
    apply every_fuel; [exact Hst | rewrite length_skipn; lia ..].
  - apply Z.ltb_ge in E.
    rewrite skipn_all2 by lia. rewrite every_nil, app_nil_r. reflexivity.
Qed.

(** X17: with a step of at least 1, the loop of [/scatterbar] over a window
    of [n] entries ends within [n + 1] iterations without throwing; it pushes
    one point for each of the entries at the indices 0, [step], [2 step],
    ..., in order, that is [ceil(n / step)] points. *)
Theorem scatterbar_samples_every_step (st : nat) (l : list (Z * Measures)) :
  (1 <= st)%nat ->
  Server.scatterbar (S (length l)) xVar yVar (Z.of_nat st) (map Server.entry_of l)
  = Some (Ok (map (fun tm => Server.point xVar yVar (fst tm) (snd tm))
                  (Server.every st l (length l))))
  /\ length (Server.every st l (length l)) = ((length l + st - 1) / st)%nat.
Proof.
  intros Hst. split.
  - unfold Server.scatterbar.
    etransitivity;
      [apply (scatter_loop_ends st l Hst (S (length l)) 0%nat []); lia |].
    cbn [skipn app]. rewrite Nat.sub_0_r. reflexivity.
  - apply every_length; [exact Hst | lia].
Qed.

(** With a negative step the loop pushes the first entry, leaves the array
    on the left and goes on for ever: every later [slice[i]] is
    [undefined], so that nothing more is pushed. *)
Lemma scatter_loop_runs (step : Z) (tm : Z * Measures) (l : list (Z * Measures)) :
  (step < 0)%Z ->
  forall (fuel : nat) (i : Z) (points : list Server.Point),
    (i <= 0)%Z ->
    Server.scatter_loop fuel xVar yVar step (map Server.entry_of (tm :: l)) i points
    = None.
Proof.
  intros Hstep. induction fuel as [| fuel IH]; intros i points Hi; [reflexivity |].
  cbn [Server.scatter_loop]. rewrite length_map.
  replace (i <? Z.of_nat (length (tm :: l)))%Z with true
    by (symmetry; apply Z.ltb_lt; cbn [length]; lia).
  unfold Server.at_index. destruct (i <? 0)%Z eqn:E.
  - apply IH. lia.
  - apply Z.ltb_ge in E. replace i with 0%Z by lia.
    cbn [Z.to_nat map nth_error Server.entry_of measures]. apply IH. lia.
Qed.

(** X18: with a negative step and a window that is not empty, the loop of
    [/scatterbar] never ends: whatever the number of iterations, it is still
    running.  (With a step of 0 the script pushes the first entry again at
    every iteration, until the memory is exhausted; that run is not
    described here.) *)
Theorem scatterbar_never_ends (step : Z) (l : list (Z * Measures)) (fuel : nat) :
  (step < 0)%Z -> l <> [] ->
  Server.scatterbar fuel xVar yVar step (map Server.entry_of l) = None.
Proof.
  intros Hstep Hne. destruct l as [| tm l]; [contradiction |].
  unfold Server.scatterbar. apply scatter_loop_runs; [exact Hstep | lia].
Qed.

End Scatterbar.

(** Three entries sampled with a step of 2: the first and the third. *)
Lemma scatterbar_samples_witness :
  Server.scatterbar 4 Server.f_temp Server.f_rh 2
    (map Server.entry_of
         [(0%Z, Sample.earlier); (1000%Z, Sample.state); (2000%Z, Sample.neutral)])
  = Some (Indices.Ok
            [Server.point Server.f_temp Server.f_rh 0 Sample.earlier;
             Server.point Server.f_temp Server.f_rh 2000 Sample.neutral]).
Proof.
  destruct (scatterbar_samples_every_step Server.f_temp Server.f_rh 2
              [(0%Z, Sample.earlier); (1000%Z, Sample.state); (2000%Z, Sample.neutral)])
    as [H _]; [lia |].
  exact H.
Defined.

(** A step of -1 on one entry, after a thousand iterations. *)
Lemma scatterbar_never_ends_witness :
  Server.scatterbar 1000 Server.f_temp Server.f_rh (-1)
    (map Server.entry_of [(0%Z, Sample.state)]) = None.
Proof.
  apply scatterbar_never_ends; [lia | discriminate].
Defined.

(** ** server.js: the coefficients of /corr *)

Section Corr.

Import Stats Indices.



(** X19: the coefficient that [/corr] stores for two series does not depend
    on their order, and the later revision, which computes the correlation
    in line, stores the same coefficient as the one that calls [pearson]:
    both run the same operations in the same order. *)
Theorem corr_coefficients (a b : list R) :
  Server.corr_entry a b = Server.corr_entry b a /\
  Server.corr_entry_inline a b = Server.corr_entry a b.
Proof.
  split.
  - unfold Server.corr_entry. cbv zeta.
    rewrite (pearson_swap b a), (Nat.eqb_sym (length b) (length a)).
    rewrite (Bool.andb_comm (Nat.leb 2 (length b)) (Nat.leb 2 (length a))).
    reflexivity.
  - unfold Server.corr_entry_inline, Server.corr_entry. cbv zeta.
    destruct (Nat.leb 2 (length a)) eqn:Ea; cbn [andb]; [| reflexivity].
    destruct (Nat.eqb (length a) (length b)) eqn:El;
      [| rewrite Bool.andb_false_r; reflexivity].
    apply Nat.leb_le in Ea. apply Nat.eqb_eq in El.
    replace (Nat.leb 2 (length b)) with true by (symmetry; apply Nat.leb_le; lia).
    cbn [andb]. unfold pearson.
    replace (Nat.eqb (length a) (length b)) with true
      by (symmetry; now apply Nat.eqb_eq).
    replace (Nat.ltb (length a) 2) with false
      by (symmetry; apply Nat.ltb_ge; exact Ea).
    cbn [negb orb]. cbv zeta. unfold mean.
    replace (Nat.eqb (length a) 0) with false by (symmetry; apply Nat.eqb_neq; lia).
    replace (Nat.eqb (length b) 0) with false by (symmetry; apply Nat.eqb_neq; lia).
    rewrite <- El. reflexivity.
Qed.






End Corr.

(** ** utils/indices.js: the revisions of computeIndices compared *)

Section RevisionsCompared.

Import Stats Indices.

Lemma window_of_well_formed (w : list (Z * Server.State)) :
  well_formed (Revisions.window_of w).
Proof.
  unfold well_formed, Revisions.window_of. apply Forall_map, Forall_forall.
  intros s _. discriminate.
Qed.

Lemma slice_last_map (A B : Type) (f : A -> B) (k : nat) (l : list A) :
  slice_last k (map f l) = map f (slice_last k l).
Proof.
  unfold slice_last. rewrite length_map. symmetry. apply map_skipn.
Qed.

Lemma series_column (k : Measures -> option R) (f : Server.State -> R)
    (w : list (Z * Server.State)) :
  (forall s : Server.State, k (Server.measures_of s) = Some (f s)) ->
  Val.series k (Revisions.window_of w) = Revisions.column f w.
Proof.
  intros Hk. unfold Val.series, Revisions.window_of, Revisions.column.
  induction w as [| s w IH]; [reflexivity |].
  cbn [map filter_present]. unfold Val.get at 1.
  cbn [Server.entry_of measures snd]. rewrite Hk. cbn [filter_present].
  f_equal. exact IH.
Qed.

Lemma series_slice_column (k : Measures -> option R) (f : Server.State -> R)
    (n : nat) (w : list (Z * Server.State)) :
  (forall s : Server.State, k (Server.measures_of s) = Some (f s)) ->
  series k (slice_last n (Revisions.window_of w))
  = Ok (Revisions.column f (slice_last n w)).
Proof.
  intros Hk. unfold Revisions.window_of at 1. rewrite slice_last_map.
  fold (Revisions.window_of (slice_last n w)).
  rewrite series_well_formed by apply window_of_well_formed.
  f_equal. now apply series_column.
Qed.

(** X21: on complete readings the guards change nothing: the revision
    without tests on missing fields and without [try] returns the same
    [IndexResult] as the guarded one. *)
Theorem guards_change_nothing_on_complete_readings
    (state : Server.State) (w : list (Z * Server.State)) :
  Revisions.computeIndices_unguarded state w
  = computeIndices (Server.measures_of state) (Revisions.window_of w).
Proof.
  unfold computeIndices, computeIndices_try, computeIndices_locals. cbv zeta.
  rewrite !(series_slice_column co2 Server.co2) by reflexivity.
  rewrite !(series_slice_column temp Server.temp) by reflexivity.
  rewrite !(series_slice_column rh Server.rh) by reflexivity.
  rewrite !(series_slice_column no2 Server.no2) by reflexivity.
  rewrite !(series_slice_column co Server.co) by reflexivity.
  rewrite !(series_slice_column nh3 Server.nh3) by reflexivity.
  reflexivity.
Qed.

Lemma penalty_first_revision (x g b : R) :
  g < b -> Revisions.penalty x g b = Num (Score.penalty (Some x) g b).
Proof.
  intros Hgb. unfold Revisions.penalty. cbn [sub]. rewrite div_Num by lra.
  cbn [Math_min Math_max mul]. f_equal. cbn [Score.penalty].
  destruct (ratio_bounds x g b Hgb) as (R0 & R1 & R2).
  unfold Val.clampR, Rmax, Rmin.
  destruct (Rle_dec x g) as [Hx | Hx].
  - assert (Hr : (x - g) / (b - g) <= 0).
    { unfold Rdiv. assert (0 < / (b - g)) by (apply Rinv_0_lt_compat; lra).
      assert (0 <= (g - x) * / (b - g)) by (apply Rmult_le_pos; lra). lra. }
    destruct (Rle_dec 1 ((x - g) / (b - g))); [lra |].
    destruct (Rle_dec 0 ((x - g) / (b - g))); lra.
  - specialize (R0 ltac:(lra)).
    destruct (Rle_dec 1 ((x - g) / (b - g)));
      destruct (Rle_dec 100 ((x - g) / (b - g) * 100)); try lra;
      repeat match goal with |- context [Rle_dec 0 ?e] => destruct (Rle_dec 0 e) end;
      lra.
Qed.

Lemma round_Num (v : R) :
  Revisions.round (Num v) = Num (IZR (round_half_up (v * 10)) / 10).
Proof.
  unfold Revisions.round. cbn [mul Revisions.Math_round]. apply div_Num. lra.
Qed.

Lemma round_between (lo hi : Z) (v : R) :
  IZR lo / 10 <= v <= IZR hi / 10 ->
  IZR lo / 10 <= IZR (round_half_up (v * 10)) / 10 <= IZR hi / 10.
Proof.
  intros H. assert (Hy : IZR lo <= v * 10 <= IZR hi) by lra.
  destruct (round_half_up_between lo hi _ Hy) as [H1 H2].
  apply IZR_le in H1, H2. lra.
Qed.

(** X22: in the revision with random placeholders, [AQL] and [TCI] do not
    depend on the draws: they are [100 - AQ_penalty] and
    [100 - TCI_penalty_pct] of the guarded revision, rounded to 1 decimal;
    and whatever the draws, [GEI] is between 78 and 94, [SRI] between 85 and
    100 and [GAQI] between 17 and 100. *)
Theorem random_revision_ranges (r : Revisions.Random) (data : Server.State) :
  Revisions.valid_random r ->
  Revisions.s_AQL (Revisions.computeIndices_random r data)
  = Revisions.round (Num (100 - Score.AQ_penalty (Server.measures_of data))) /\
  Revisions.s_TCI (Revisions.computeIndices_random r data)
  = Revisions.round (Num (100 - Score.TCI_penalty_pct (Server.measures_of data))) /\
  exists a t g s q : R,
    Revisions.computeIndices_random r data
    = {| Revisions.s_AQL := Num a; Revisions.s_GEI := Num g;
         Revisions.s_TCI := Num t; Revisions.s_SRI := Num s;
         Revisions.s_GAQI := Num q |} /\
    0 <= a <= 100 /\ 0 <= t <= 100 /\ 78 <= g <= 94 /\ 85 <= s <= 100
    /\ 17 <= q <= 100.
Proof.
  intros (U1 & U2 & U3 & U4 & U5). unfold Server.random_draw in *.
  set (st := Server.measures_of data).
  pose proof (AQ_penalty_range st) as Haq.
  pose proof (clampR_bounds (Score.raw_tci st / 76 * 100)) as Htp.
  fold (Score.TCI_penalty_pct st) in Htp.
  assert (Hraw : 0 <= Score.raw_tci st).
  { unfold Score.raw_tci, Score.deviation, st.
    cbn [Server.measures_of temp rh pres].
    pose proof (Rabs_pos (Server.temp data - 22)).
    pose proof (Rabs_pos (Server.rh data - 50)).
    pose proof (Rabs_pos (Server.pres data - 1013)). lra. }
  assert (HAQ : (Num 0.5 * Revisions.penalty (Server.co2 data) 600 2000
                 + Num 0.25 * Revisions.penalty (Server.no2 data) 40 200
                 + Num 0.15 * Revisions.penalty (Server.nh3 data) 0.01 0.1
                 + Num 0.1 * Revisions.penalty (Server.co data) 0.5 10)%js
                = Num (Score.AQ_penalty st)).
  { rewrite !penalty_first_revision by lra. cbn [add mul]. f_equal.
    unfold Score.AQ_penalty, st. cbn [Server.measures_of co2 no2 nh3 co]. lra. }
  assert (HTP : Math_min (Num 100)
                  ((Math_abs (Num (Server.temp data) - Num 22) * Num 2.5
                    + Math_abs (Num (Server.rh data) - Num 50) * Num 0.5
                    + Math_abs (Num (Server.pres data) - Num 1013) * Num 0.02)
                   / Num 76 * Num 100)%js
                = Num (Score.TCI_penalty_pct st)).
  { cbn [sub Math_abs mul add]. rewrite div_Num by lra. cbn [mul Math_min]. f_equal.
    unfold Score.TCI_penalty_pct. unfold Score.raw_tci in *.
    unfold Score.deviation, st in *. cbn [Server.measures_of temp rh pres] in *.
    unfold Val.clampR, Rmax, Rmin.
    match goal with |- context [Rle_dec 100 ?e] => destruct (Rle_dec 100 e) end;
      match goal with |- context [Rle_dec 0 ?e] => destruct (Rle_dec 0 e) end; lra. }
  assert (HG : (Num 100 - Math_abs (Num 0.1 + Num (Revisions.r_corr1 r) * Num 0.2) * Num 40
                - Math_abs (Num 0.05 + Num (Revisions.r_corr2 r) * Num 0.2) * Num 40)%js
               = Num (100 - (0.1 + Revisions.r_corr1 r * 0.2) * 40
                      - (0.05 + Revisions.r_corr2 r * 0.2) * 40)).
  { cbn [add mul sub Math_abs]. rewrite !Rabs_pos_eq by lra. reflexivity. }
  assert (HS : Math_max (Num 0)
                 (Num 100
                  - (Num (Revisions.r_co2 r) * Num 50 / Num 500 * Num 0.4
                     + Num (Revisions.r_temp r) * Num 0.5 / Num 3 * Num 0.3
                     + Num (Revisions.r_rh r) * Num 2 / Num 10 * Num 0.3) * Num 100)%js
               = Num (100 - (0.04 * Revisions.r_co2 r + 0.05 * Revisions.r_temp r
                             + 0.06 * Revisions.r_rh r) * 100)).
  { cbn [mul]. rewrite !div_Num by lra. cbn [add mul sub Math_max]. f_equal.
    unfold Rmax.
    match goal with |- context [Rle_dec 0 ?e] => destruct (Rle_dec 0 e) end; lra. }
  unfold Revisions.computeIndices_random. cbv zeta.
  rewrite HAQ, HTP, HG, HS.
  cbn [Revisions.s_AQL Revisions.s_TCI sub mul add].
  split; [reflexivity |]. split; [reflexivity |].
  rewrite !round_Num.
  do 5 eexists. split; [reflexivity |].
  split; [| split; [| split; [| split]]].
  - pose proof (round_between 0 1000 (100 - Score.AQ_penalty st)). lra.
  - pose proof (round_between 0 1000 (100 - Score.TCI_penalty_pct st)). lra.
  - match goal with |- _ <= IZR (round_half_up (?v * 10)) / 10 <= _ =>
      pose proof (round_between 780 940 v) end. lra.
  - match goal with |- _ <= IZR (round_half_up (?v * 10)) / 10 <= _ =>
      pose proof (round_between 850 1000 v) end. lra.
  - match goal with |- _ <= IZR (round_half_up (?v * 10)) / 10 <= _ =>
      pose proof (round_between 170 1000 v) end. lra.
Qed.

End RevisionsCompared.

(** The initial state of the simulator with every draw at 0.5. *)
Lemma random_revision_witness :
  exists g : R,
    Revisions.s_GEI (Revisions.computeIndices_random Revisions.middle Server.initial)
    = Num g /\ 78 <= g <= 94.
Proof.
  destruct (random_revision_ranges Revisions.middle Server.initial)
    as (_ & _ & a & t & g & s & q & Heq & _ & _ & Hg & _).
  - unfold Revisions.valid_random, Server.random_draw, Revisions.middle. simpl. lra.
  - exists g. split; [rewrite Heq; reflexivity | exact Hg].
Defined.
